(** * kiya: the local encrypted secret store and its backends

    A shallow embedding of [backend/filestore.go] (the [FileStore]
    backend: AEAD envelope cipher and whole-file JSON persistence), of
    [VaultStore.Put] / [AWSSecretManager.Put] and of the [restore] command,
    followed by the properties of the specification that concern them.

    Conventions.
    - A Go [[]byte] is a [list byte]; the nil slice and the empty slice are
      both [[]] (the code only ever tests [len]).
    - A Go function returning [(T, error)] that may also panic is a
      computation in the monad [M]: it threads the [World] (file, entropy,
      clock, user) and ends in [Ok], [Err] or [Panic].
    - The cryptographic primitives (argon2, XChaCha20-Poly1305),
      [encoding/json] and the remote services are outside the repository:
      each is an interface (a class), constrained only by its documented
      laws.  Reference instances show the laws satisfiable and let the
      model run. *)

From Stdlib Require Import ZArith Lia List.
From Stdlib Require Import Strings.Byte Strings.String.
From stdpp Require Import base list strings gmap.

Local Open Scope string_scope.
Local Open Scope list_scope.

(** ** Bytes and strings *)

Abbreviation bytes := (list byte).

#[global] Instance byte_eq_decision : EqDecision byte := byte_eq_dec.

(** [[]byte(s)] and [string(b)]. *)
Definition bytes_of_string (s : string) : bytes := list_byte_of_string s.
Definition string_of_bytes (b : bytes) : string := string_of_list_byte b.

(** ** Errors

    Go's [error] values, one constructor per error the modelled code creates
    or receives.  [error_message] gives the text of [Error()]. *)

Inductive error : Type :=
| ErrNotExist                         (* os.ErrNotExist, from os.Stat / ReadFile *)
| ErrSyscall (errno : nat)            (* any other failure of the operating system *)
| ErrJSON (msg : string)              (* an error of encoding/json *)
| ErrIncorrectFormat                  (* errors.New("data has incorrect format") *)
| ErrBadKeyLength                     (* chacha20poly1305.NewX: bad key length *)
| ErrOpen                             (* chacha20poly1305: message authentication failed *)
| ErrMessageAuthenticationFailed      (* Get: fmt.Errorf("message authentication failed") *)
| ErrKeyNotFound (key : string)       (* Get: fmt.Errorf("%s not found", key) *)
| ErrAlreadyExists (key : string)     (* VaultStore.Put: secret with key '%s' already exists *)
| ErrResponse (status : nat).         (* a vault.ResponseError / service error with its status *)

#[global] Instance error_eq_decision : EqDecision error.
Proof. solve_decision. Defined.

Definition error_message (e : error) : string :=
  match e with
  | ErrNotExist => "file does not exist"
  | ErrSyscall _ => "system call failed"
  | ErrJSON msg => msg
  | ErrIncorrectFormat => "data has incorrect format"
  | ErrBadKeyLength => "chacha20poly1305: bad key length"
  | ErrOpen => "chacha20poly1305: message authentication failed"
  | ErrMessageAuthenticationFailed => "message authentication failed"
  | ErrKeyNotFound key => key ++ " not found"
  | ErrAlreadyExists key => "secret with key '" ++ key ++ "' already exists"
  | ErrResponse _ => "response error"
  end.

(** The error taxonomy of the specification (section 7), as a
    classification of the Go errors above; the errors of the remote
    backends and of the cipher's key check have no class there.  The fifth
    class of the taxonomy, the failure of the entropy source, is not an
    error value: [makeNonce] panics. *)
Inductive ErrorClass : Type :=
| NotFoundError
| AuthenticationError
| FormatError
| IOError.

#[global] Instance ErrorClass_eq_decision : EqDecision ErrorClass.
Proof. solve_decision. Defined.

Definition classify (e : error) : option ErrorClass :=
  match e with
  | ErrNotExist | ErrSyscall _ => Some IOError
  | ErrJSON _ | ErrIncorrectFormat => Some FormatError
  | ErrOpen | ErrMessageAuthenticationFailed => Some AuthenticationError
  | ErrKeyNotFound _ => Some NotFoundError
  | ErrBadKeyLength | ErrAlreadyExists _ | ErrResponse _ => None
  end.

(** ** Outcomes and the world *)

Inductive Outcome (A : Type) : Type :=
| Ok (a : A)
| Err (e : error)
| Panic (msg : string).
Arguments Ok {A} a.
Arguments Err {A} e.
Arguments Panic {A} msg.

Definition is_Ok {A} (o : Outcome A) : bool :=
  match o with Ok _ => true | _ => false end.

(** One answer of [rand.Reader.Read]: some bytes, or an error. *)
Inductive RandRead : Type :=
| RandBytes (bs : bytes)
| RandErr (errno : nat).

(** [time.Time], as nanoseconds since the Unix epoch. *)
Definition Time := Z.

(** The environment of one [FileStore]: the file at [storeLocation], the
    schedule of operating-system faults, the entropy source, the clock and
    the current user.  [fs_writes] is a ghost log of every payload handed to
    [ioutil.WriteFile], whether the call succeeded or not. *)
Record World : Type := mkWorld {
  fs_file : option bytes;            (* None: the file does not exist *)
  fs_writes : list bytes;
  fs_faults : list (option nat);     (* outcome of each coming file system call *)
  entropy : list RandRead;           (* answers of the coming rand.Reader.Read calls *)
  clock : Time;                      (* what time.Now() returns *)
  os_user : option string            (* user.Current(): the Name, None on error *)
}.

Definition M (A : Type) : Type := World -> Outcome A * World.

Definition ret {A} (a : A) : M A := fun w => (Ok a, w).
Definition fail {A} (e : error) : M A := fun w => (Err e, w).
Definition panic {A} (msg : string) : M A := fun w => (Panic msg, w).

Definition bind {A B} (m : M A) (k : A -> M B) : M B :=
  fun w =>
    match m w with
    | (Ok a, w') => k a w'
    | (Err e, w') => (Err e, w')
    | (Panic msg, w') => (Panic msg, w')
    end.

(** The Go idiom [x, err := f(); if err != nil { ... }]: run [m] and hand
    its result, error included, to the continuation.  A panic still
    propagates. *)
Definition try {A B} (m : M A) (k : error + A -> M B) : M B :=
  fun w =>
    match m w with
    | (Ok a, w') => k (inr a) w'
    | (Err e, w') => k (inl e) w'
    | (Panic msg, w') => (Panic msg, w')
    end.

(** A pure computation that may fail or panic, run inside [M]. *)
Definition lift {A} (o : Outcome A) : M A := fun w => (o, w).

Declare Scope go_scope.
Delimit Scope go_scope with go.
Notation "x <- m ;; k" := (bind m (fun x => k))
  (at level 100, m at next level, right associativity) : go_scope.
Local Open Scope go_scope.

(** ** Operating-system primitives *)

(** Every file system call first consumes the head of the fault schedule. *)
Definition next_fault (w : World) : option nat * World :=
  match fs_faults w with
  | [] => (None, w)
  | f :: rest =>
      (f, mkWorld (fs_file w) (fs_writes w) rest (entropy w) (clock w) (os_user w))
  end.

(** [os.Stat(d.storeLocation)]. *)
Definition os_Stat : M unit := fun w =>
  match next_fault w with
  | (Some errno, w') => (Err (ErrSyscall errno), w')
  | (None, w') =>
      match fs_file w' with
      | None => (Err ErrNotExist, w')
      | Some _ => (Ok tt, w')
      end
  end.

(** [ioutil.ReadFile(d.storeLocation)]. *)
Definition ioutil_ReadFile : M bytes := fun w =>
  match next_fault w with
  | (Some errno, w') => (Err (ErrSyscall errno), w')
  | (None, w') =>
      match fs_file w' with
      | None => (Err ErrNotExist, w')
      | Some b => (Ok b, w')
      end
  end.

(** [ioutil.WriteFile(d.storeLocation, data, 0600)]: creates or replaces the
    file.  A faulted call is modelled as failing before the file is touched;
    the attempt is logged either way. *)
Definition ioutil_WriteFile (data : bytes) : M unit := fun w =>
  match next_fault w with
  | (Some errno, w') =>
      (Err (ErrSyscall errno),
       mkWorld (fs_file w') (fs_writes w' ++ [data]) (fs_faults w')
               (entropy w') (clock w') (os_user w'))
  | (None, w') =>
      (Ok tt,
       mkWorld (Some data) (fs_writes w' ++ [data]) (fs_faults w')
               (entropy w') (clock w') (os_user w'))
  end.

(** [rand.Reader.Read(buf)] on a zeroed buffer of [len] bytes: returns the
    buffer, the number of bytes read and the error. *)
Definition rand_Read (len : nat) : World -> (bytes * nat * option error) * World :=
  fun w =>
    match entropy w with
    | [] => ((repeat x00 len, 0, Some (ErrSyscall 0)), w)
    | r :: rest =>
        let w' := mkWorld (fs_file w) (fs_writes w) (fs_faults w) rest
                          (clock w) (os_user w) in
        match r with
        | RandErr errno => ((repeat x00 len, 0, Some (ErrSyscall errno)), w')
        | RandBytes bs =>
            let got := take len bs in
            ((got ++ repeat x00 (len - length got), length got, None), w')
        end
    end.

(** [time.Now()]. *)
Definition time_Now : M Time := fun w => (Ok (clock w), w).

(** [user.Current()], reduced to the [Name] of the user; the result is
    [None] when the call returns an error. *)
Definition user_Current : M (option string) := fun w => (Ok (os_user w), w).

(** ** The data model of the store ([backend] package) *)

(** [Key]: the metadata of a secret. *)
Record Key : Type := mkKey {
  Name : string;
  CreatedAt : Time;
  Owner : string;
  Info : string
}.

Record FileStoreEntry : Type := mkFileStoreEntry {
  Value : bytes;
  KeyInfo : Key
}.

Record FileStore : Type := mkFileStore {
  storeLocation : string;
  projectID : string;
  cryptoKey : bytes
}.

#[global] Instance Key_eq_decision : EqDecision Key.
Proof. solve_decision. Defined.
#[global] Instance FileStoreEntry_eq_decision : EqDecision FileStoreEntry.
Proof. solve_decision. Defined.

(** Go's [s[lo:hi]]. *)
Definition slice {A} (lo hi : nat) (s : list A) : list A := take (hi - lo) (drop lo s).

(** The [cipher.AEAD] that [chacha20poly1305.NewX] returns: it holds the key. *)
Record xchacha20poly1305 : Type := mkCipher { cipher_key : bytes }.

(** makeNonce generates a secure random nonce used for encryption of the
    passwords. *)
Definition makeNonce (len : nat) : M bytes := fun w =>
  match rand_Read len w with
  | ((salt, n, Some err), w') => (Panic (error_message err), w')
  | ((salt, n, None), w') =>
      if decide (n = len) then (Ok salt, w')
      else (Panic "An error occurred while generating salt", w')
  end.

(** ** Remote backends and the command layer: data *)

(** The fields of [Profile] that the modelled code reads. *)
Record Profile : Type := mkProfile {
  ProjectID : string;
  VaultMountPath : string
}.

(** [schema.KvV2WriteRequest{Data: map[string]interface{}{"value": value}}]. *)
Record KvV2WriteRequest : Type := mkKvV2WriteRequest { kv_value : string }.

(** [secretsmanager.PutSecretValueInput]. *)
Record PutSecretValueInput : Type := mkPutSecretValueInput {
  SecretId : string;
  SecretString : string
}.

(** What the [restore] command leaves behind: [log.Fatalf] ends the
    process; otherwise the number of keys found, the [[ERROR]] lines logged
    (key and error) and the backend after the calls. *)
Inductive RestoreResult (S : Type) : Type :=
| Fatal (msg : string)
| Restored (total : nat) (errors : list (string * error)) (b : S).
Arguments Fatal {S} msg.
Arguments Restored {S} total errors b.

(** ** The libraries and services the code calls

    Each is an interface, with the laws the proofs rely on in a class of its
    own. *)

(** [golang.org/x/crypto/argon2]:
    [argon2.Key(password, salt, time, memory, threads, keyLen)]; the cost
    parameters are [uint32] / [uint8] values, here in [N]. *)
Class Argon2 : Type := mkArgon2 {
  argon2_Key : bytes -> bytes -> N -> N -> N -> nat -> bytes
}.

Class Argon2Laws (A : Argon2) : Prop := mkArgon2Laws {
  argon2_Key_length : forall password salt time memory threads keyLen,
    length (argon2_Key password salt time memory threads keyLen) = keyLen
}.

Definition KeySize : nat := 32.
Definition NonceSizeX : nat := 24.
Definition Overhead : nat := 16.

(** XChaCha20-Poly1305 on a 32-byte key and a 24-byte nonce:
    [xseal key nonce plaintext ad] and [xopen key nonce ciphertext ad]. *)
Class XChaCha20Poly1305 : Type := mkXChaCha20Poly1305 {
  xseal : bytes -> bytes -> bytes -> bytes -> bytes;
  xopen : bytes -> bytes -> bytes -> bytes -> option bytes
}.

Class XChaCha20Poly1305Laws (X : XChaCha20Poly1305) : Prop := mkXChaCha20Poly1305Laws {
  xseal_length : forall key nonce plaintext ad,
    length (xseal key nonce plaintext ad) = length plaintext + Overhead;
  xopen_xseal : forall key nonce plaintext ad,
    length key = KeySize -> length nonce = NonceSizeX ->
    xopen key nonce (xseal key nonce plaintext ad) ad = Some plaintext
}.

(** [encoding/json]: [json.Marshal(&store)] and [json.Unmarshal(data, &store)]
    at type [[]FileStoreEntry], and [json.Unmarshal(buf, &items)] at type
    [map[string][]byte].  [json_exact] holds of the records that
    encoding/json reproduces exactly (strings that are valid UTF-8, a
    timestamp whose year is within 0..9999). *)
Class EncodingJSON : Type := mkEncodingJSON {
  json_Marshal : list FileStoreEntry -> error + bytes;
  json_Unmarshal : bytes -> error + list FileStoreEntry;
  json_exact : FileStoreEntry -> Prop;
  json_Unmarshal_items : bytes -> error + gmap string bytes
}.

Class EncodingJSONLaws (J : EncodingJSON) : Prop := mkEncodingJSONLaws {
  json_Marshal_total : forall store,
    Forall json_exact store -> exists data, json_Marshal store = inr data;
  json_Unmarshal_Marshal : forall store data,
    Forall json_exact store -> json_Marshal store = inr data ->
    json_Unmarshal data = inr store;
  json_Marshal_array : forall store data,
    store <> [] -> json_Marshal store = inr data ->
    exists body, body <> [] /\ data = ["["%byte] ++ body ++ ["]"%byte]
}.

(** The order in which [range] visits a [map[string][]byte] (unspecified in
    Go: any enumeration of the entries). *)
Class MapRange : Type := mkMapRange {
  range_items : gmap string bytes -> list (string * bytes)
}.

Class MapRangeLaws (R : MapRange) : Prop := mkMapRangeLaws {
  range_items_perm : forall items : gmap string bytes,
    range_items items ≡ₚ map_to_list items
}.

(** [path.Join(a, b)]. *)
Class PathPkg : Type := mkPathPkg {
  path_Join : string -> string -> string
}.

(** The Vault service behind [v.client]: [KvV2Read] and [KvV2Write] on a
    path under a mount. *)
Class VaultClient (Vault : Type) : Type := mkVaultClient {
  KvV2Read : Vault -> string -> string -> error + string;
  KvV2Write : Vault -> string -> KvV2WriteRequest -> string -> option error * Vault
}.

(** The AWS Secrets Manager service behind [m.client]. *)
Class SecretsManagerClient (SecretsManager : Type) : Type := mkSecretsManagerClient {
  GetSecretValue : SecretsManager -> string -> error + bytes;
  PutSecretValue : SecretsManager -> PutSecretValueInput -> option error * SecretsManager
}.

Section Kiya.

Context {A2 : Argon2} {XC : XChaCha20Poly1305} {EJ : EncodingJSON} {MR : MapRange}
        {PP : PathPkg} {Vault : Type} {VC : VaultClient Vault}
        {SecretsManager : Type} {SM : SecretsManagerClient SecretsManager}.

(** *** golang.org/x/crypto/chacha20poly1305, around the raw primitive

    [NewX] checks the key size, [Seal] and [Open] panic on a nonce that is
    not [NonceSizeX] bytes long, and [Open] rejects any input shorter than
    the 16-byte tag. *)

Definition chacha20poly1305_NewX (key : bytes) : Outcome xchacha20poly1305 :=
  if decide (length key = KeySize) then Ok (mkCipher key) else Err ErrBadKeyLength.

Definition cipher_Seal (c : xchacha20poly1305) (nonce plaintext additionalData : bytes)
    : Outcome bytes :=
  if decide (length nonce = NonceSizeX)
  then Ok (xseal (cipher_key c) nonce plaintext additionalData)
  else Panic "chacha20poly1305: bad nonce length passed to Seal".

Definition cipher_Open (c : xchacha20poly1305) (nonce ciphertext additionalData : bytes)
    : Outcome bytes :=
  if decide (length nonce = NonceSizeX) then
    if (length ciphertext <? Overhead)%nat then Err ErrOpen
    else match xopen (cipher_key c) nonce ciphertext additionalData with
         | Some plaintext => Ok plaintext
         | None => Err ErrOpen
         end
  else Panic "chacha20poly1305: bad nonce length passed to Open".

(** *** The envelope cipher *)

(** encrypt data based on the argon2 hashing algorithm and xchacha20
    cipher algorithm *)
Definition encrypt (data pass : bytes) : M bytes :=
  salt <- makeNonce 16 ;;
  let key := argon2_Key pass salt 3%N (32 * 1024)%N 4%N 32 in
  cipher <- lift (chacha20poly1305_NewX key) ;;
  nonce <- makeNonce 24 ;;
  cipherText <- lift (cipher_Seal cipher nonce data []) ;;
  ret ((salt ++ nonce) ++ cipherText).

(** decrypt data based on the argon2 hashing algorithm and xchacha20
    cipher algorithm *)
Definition decrypt (data pass : bytes) : Outcome bytes :=
  if (length data <? 40)%nat then Err ErrIncorrectFormat
  else
    let salt := slice 0 16 data in
    let nonce := slice 16 40 data in
    let data := drop 40 data in
    let key := argon2_Key pass salt 3%N (32 * 1024)%N 4%N 32 in
    match chacha20poly1305_NewX key with
    | Ok cipher => cipher_Open cipher nonce data []
    | Err err => Err err
    | Panic msg => Panic msg
    end.

(** *** Store persistence *)

(** createStoreIfNotExists creates the file store on disc if it does not
    exists and initializes with an empty value *)
Definition createStoreIfNotExists (d : FileStore) : M unit :=
  try os_Stat (fun r =>
    match r with
    | inl err =>
        if decide (err = ErrNotExist) then
          (* err = ioutil.WriteFile(...); the final [return err] is then nil *)
          _ <- ioutil_WriteFile [] ;; ret tt
        else fail err
    | inr _ => ret tt
    end).

(** getStore loads the file based store from disc *)
Definition getStore (d : FileStore) : M (list FileStoreEntry) :=
  _ <- createStoreIfNotExists d ;;
  data <- ioutil_ReadFile ;;
  if decide (length data = 0) then ret []
  else match json_Unmarshal data with
       | inl err => fail err
       | inr store => ret store
       end.

(** The [for ... range storeData] loop of [Get]. *)
Fixpoint Get_range (d : FileStore) (key : string) (storeData : list FileStoreEntry)
    : Outcome bytes :=
  match storeData with
  | [] => Err (ErrKeyNotFound key)
  | data :: rest =>
      if decide (Name (KeyInfo data) = key) then
        match decrypt (Value data) (cryptoKey d) with
        | Ok data => Ok data
        | Err _ => Err ErrMessageAuthenticationFailed
        | Panic msg => Panic msg
        end
      else Get_range d key rest
  end.

(** Get reads the store from file, fetches and decrypt the value for given
    key *)
Definition FileStore_Get (d : FileStore) (key : string) : M bytes :=
  storeData <- getStore d ;;
  lift (Get_range d key storeData).

(** List reads the store from file, and fetch all keys *)
Definition FileStore_List (d : FileStore) : M (list Key) :=
  storeData <- getStore d ;;
  ret (fold_left (fun keys info => keys ++ [KeyInfo info]) storeData []).

(** CheckExists checks if given key exists in the (file)store *)
Definition FileStore_CheckExists (d : FileStore) (key : string) : M bool :=
  storeData <- getStore d ;;
  ret (existsb (fun each => bool_decide (Name (KeyInfo each) = key)) storeData).

(** Put a new Key with encrypted password in the store. Put overwrites the
    entire store file with the updated store *)
Definition FileStore_Put (d : FileStore) (key value : string) : M unit :=
  _ <- createStoreIfNotExists d ;;
  encryptedData <- encrypt (bytes_of_string value) (cryptoKey d) ;;
  currUser <- user_Current ;;
  let owner := match currUser with Some name => name | None => "" end in
  now <- time_Now ;;
  let newStore := mkFileStoreEntry encryptedData (mkKey key now owner "") in
  discStoreEntries <- getStore d ;;
  let store := [] ++ discStoreEntries in
  let store := store ++ [newStore] in
  match json_Marshal store with
  | inl err => fail err
  | inr data => ioutil_WriteFile data
  end.

(** Delete a key from the store. Delete overwrites the entire store file
    with the updated store values *)
Definition FileStore_Delete (d : FileStore) (key : string) : M unit :=
  discStoreEntries <- getStore d ;;
  let newDiscStore :=
    fold_left (fun acc entry =>
                 if decide (Name (KeyInfo entry) <> key) then acc ++ [entry] else acc)
              discStoreEntries [] in
  (* prevents "nil" being written to file *)
  if (0 <? length newDiscStore)%nat then
    match json_Marshal newDiscStore with
    | inl err => fail err
    | inr data => ioutil_WriteFile data
    end
  else ioutil_WriteFile [].


(** *** VaultStore *)

Definition getMountPath (p : Profile) : string :=
  if decide (VaultMountPath p <> "") then VaultMountPath p else "secret".

Definition http_StatusNotFound : nat := 404.

Definition VaultStore_CheckExists (v : Vault) (p : Profile) (key : string)
    : error + bool :=
  match KvV2Read v (path_Join (ProjectID p) key) (getMountPath p) with
  | inl err =>
      match err with
      | ErrResponse status =>
          if decide (status = http_StatusNotFound) then inr false else inl err
      | _ => inl err
      end
  | inr _ => inr true
  end.

Definition VaultStore_write (v : Vault) (p : Profile) (key value : string)
    : option error * Vault :=
  let req := mkKvV2WriteRequest value in
  KvV2Write v (path_Join (ProjectID p) key) req (getMountPath p).

Definition VaultStore_Put (v : Vault) (p : Profile) (key value : string)
    (overwrite : bool) : option error * Vault :=
  if negb overwrite then
    match VaultStore_CheckExists v p key with
    | inl err => (Some err, v)
    | inr exists_ =>
        if exists_ then (Some (ErrAlreadyExists key), v)
        else VaultStore_write v p key value
    end
  else VaultStore_write v p key value.

(** *** AWSSecretManager *)

(** CheckExists implements Backend. *)
Definition AWSSecretManager_CheckExists (m : SecretsManager) (p : Profile)
    (key : string) : error + bool :=
  match GetSecretValue m key with
  | inl err => inl err
  | inr _ => inr true
  end.

(** Put implements Backend. *)
Definition AWSSecretManager_Put (m : SecretsManager) (p : Profile)
    (key value : string) (overwrite : bool) : option error * SecretsManager :=
  let input := mkPutSecretValueInput key value in
  match PutSecretValue m input with
  | (Some err, m') => (Some err, m')
  | (None, m') => (None, m')
  end.

(** *** The [restore] command of [main] *)

(** The body of the [for k, v := range items] loop, over the visiting
    order: every value is [Put] under [k_restore] with [overwrite = false];
    a failed [Put] is logged and the loop goes on. *)
Fixpoint restore_range {S : Type} (put : S -> Profile -> string -> string -> bool -> option error * S)
    (target : Profile) (items : list (string * bytes)) (b : S)
    : list (string * error) * S :=
  match items with
  | [] => ([], b)
  | (k, v) :: rest =>
      let '(err, b') := put b target (k ++ "_restore")%string (string_of_bytes v) false in
      let '(errors, b'') := restore_range put target rest b' in
      (match err with Some e => (k, e) :: errors | None => errors end, b'')
  end.

(** [case "restore"]: [file] is the result of [os.ReadFile( *oPath)]. *)
Definition restore {S : Type} (put : S -> Profile -> string -> string -> bool -> option error * S)
    (target : Profile) (file : error + bytes) (b : S) : RestoreResult S :=
  match file with
  | inl err => Fatal ("read failed, " ++ error_message err)%string
  | inr buf =>
      match json_Unmarshal_items buf with
      | inl err => Fatal ("decode failed, " ++ error_message err)%string
      | inr items =>
          let '(errors, b') := restore_range put target (range_items items) b in
          Restored (size items) errors b'
      end
  end.


(** *** Vocabulary of the properties *)

(** The entropy source answers the coming reads of [lens] bytes in full. *)
Fixpoint supplies (lens : list nat) (e : list RandRead) : bool :=
  match lens, e with
  | [], _ => true
  | len :: lens', RandBytes bs :: e' => (len <=? length bs)%nat && supplies lens' e'
  | _ :: _, _ => false
  end.

(** Everything in the world but the entropy source is as before. *)
Definition same_files (w w' : World) : Prop :=
  fs_file w' = fs_file w /\ fs_writes w' = fs_writes w /\ fs_faults w' = fs_faults w /\
  clock w' = clock w /\ os_user w' = os_user w.

(** [respects R m]: every run of [m] relates the world before to the world
    after by [R]. *)
Definition respects {A} (R : World -> World -> Prop) (m : M A) : Prop :=
  forall w r w', m w = (r, w') -> R w w'.

(** What the store ever writes: zero bytes, or the JSON encoding of a
    non-empty sequence of records. *)
Definition written_ok (b : bytes) : Prop :=
  b = [] \/ exists store, store <> [] /\ json_Marshal store = inr b.


(** One run: the file is left alone or replaced by a well-shaped payload,
    and every payload handed to [WriteFile] is well shaped. *)
Definition step_ok (w w' : World) : Prop :=
  (fs_file w' = fs_file w \/ exists b, fs_file w' = Some b /\ written_ok b) /\
  exists new, fs_writes w' = fs_writes w ++ new /\ Forall written_ok new.



(** The world once the store file is known to exist. *)
Definition created (w : World) : World :=
  match fs_file w with
  | Some _ => w
  | None => mkWorld (Some []) (fs_writes w ++ [[]]) (fs_faults w)
                    (entropy w) (clock w) (os_user w)
  end.

(** The records a file content stands for. *)
Definition decode_file (f : option bytes) : error + list FileStoreEntry :=
  match f with
  | None => inr []
  | Some data => if decide (length data = 0) then inr [] else json_Unmarshal data
  end.

Definition outcome_of {A} (r : error + A) : Outcome A :=
  match r with inl e => Err e | inr a => Ok a end.

(** The record [Put] builds for [key] in world [w]. *)
Definition new_entry (w : World) (key : string) (encryptedData : bytes) : FileStoreEntry :=
  mkFileStoreEntry encryptedData
    (mkKey key (clock w) (match os_user w with Some name => name | None => "" end) "").

(** The file and the log of writes are as before. *)
Definition untouched (w w' : World) : Prop :=
  fs_file w' = fs_file w /\ fs_writes w' = fs_writes w.

(** A backend honours the flag when [Put] with [overwrite = false] returns
    an error for every key that [CheckExists] reports as existing. *)
Definition honors_overwrite {S : Type}
    (check : S -> Profile -> string -> error + bool)
    (put : S -> Profile -> string -> string -> bool -> option error * S) : Prop :=
  forall s p key value,
    check s p key = inr true -> exists err, fst (put s p key value false) = Some err.

(** A backend that only records the calls of [Put]. *)
Definition recording_Put (calls : list (string * string * bool)) (p : Profile)
    (key value : string) (overwrite : bool)
    : option error * list (string * string * bool) :=
  (None, calls ++ [(key, value, overwrite)]).

End Kiya.

(** ** The rest of the backends and of the command layer *)

(** A Go [interface{}] holding a decoded JSON value: a string, or anything
    else. *)
Inductive Interface : Type :=
| IfaceString (s : string)
| IfaceOther.

(** The other calls of the Vault client: [KvV2Read] with the [Data.Data] map
    of its response, [KvV2List] with [Data.Keys], [KvV2ReadMetadata] with
    [Data.CreatedTime], and [KvV2DeleteMetadataAndAllVersions]. *)
Class VaultKV (Vault : Type) : Type := mkVaultKV {
  KvV2Read_Data : Vault -> string -> string -> error + gmap string Interface;
  KvV2List : Vault -> string -> string -> error + list string;
  KvV2ReadMetadata : Vault -> string -> string -> error + Time;
  KvV2DeleteMetadataAndAllVersions : Vault -> string -> string -> option error * Vault
}.

(** The errors of [VaultStore.Get]: the client's, or one of its own. *)
Inductive VaultGetError : Type :=
| VaultClientError (err : error)
| ErrNoValue          (* secret data did not contain a value for key 'value' *)
| ErrValueNotString.  (* secret value was not a string *)

(** [types.SecretListEntry], [secretsmanager.ListSecretsInput] and
    [secretsmanager.ListSecretsOutput]; a nil pointer is [None]. *)
Record SecretListEntry : Type := mkSecretListEntry {
  sl_Name : option string;
  sl_CreatedDate : option Time;
  sl_Description : option string;
  sl_OwningService : option string
}.

Record ListSecretsInput : Type := mkListSecretsInput {
  MaxResults : Z;
  in_NextToken : option string
}.

Record ListSecretsOutput : Type := mkListSecretsOutput {
  SecretList : list SecretListEntry;
  NextToken : option string
}.

Class SecretsManagerLister (SecretsManager : Type) : Type := mkSecretsManagerLister {
  ListSecrets : SecretsManager -> ListSecretsInput -> error + ListSecretsOutput
}.

(** How a command ends: it returns, [log.Fatal] ends the process, or the
    runtime panics. *)
Inductive Ending (A : Type) : Type :=
| Returns (a : A)
| LogFatal (msg : string)
| RuntimePanic (msg : string).
Arguments Returns {A} a.
Arguments LogFatal {A} msg.
Arguments RuntimePanic {A} msg.

Section KiyaRest.

Context {PP : PathPkg} {Vault : Type} {VK : VaultKV Vault}
        {SecretsManager : Type} {SL : SecretsManagerLister SecretsManager}.

(** *** VaultStore, the other methods *)

Definition VaultStore_Get (v : Vault) (p : Profile) (key : string)
    : VaultGetError + bytes :=
  match KvV2Read_Data v (path_Join (ProjectID p) key) (getMountPath p) with
  | inl err => inl (VaultClientError err)
  | inr resp_Data =>
      match resp_Data !! "value" with
      | None => inl ErrNoValue
      | Some data =>
          match data with
          | IfaceString value => inr (bytes_of_string value)
          | IfaceOther => inl ErrValueNotString
          end
      end
  end.

(** The [for _, keyName := range resp.Data.Keys] loop of [List]. *)
Fixpoint VaultStore_List_range (v : Vault) (p : Profile) (names : list string)
    (keys : list Key) : error + list Key :=
  match names with
  | [] => inr keys
  | keyName :: rest =>
      (* This will be slow, as we have to fetch metadata for each key. *)
      match KvV2ReadMetadata v (path_Join (ProjectID p) keyName) (getMountPath p) with
      | inl err => inl err
      | inr createdTime =>
          VaultStore_List_range v p rest (keys ++ [mkKey keyName createdTime "" ""])
      end
  end.

Definition VaultStore_List (v : Vault) (p : Profile) : error + list Key :=
  match KvV2List v (ProjectID p) (getMountPath p) with
  | inl err =>
      match err with
      | ErrResponse status =>
          if decide (status = http_StatusNotFound) then inr [] else inl err
      | _ => inl err
      end
  | inr resp_Keys => VaultStore_List_range v p resp_Keys []
  end.

Definition VaultStore_Delete (v : Vault) (p : Profile) (key : string)
    : option error * Vault :=
  match KvV2DeleteMetadataAndAllVersions v (path_Join (ProjectID p) key)
                                         (getMountPath p) with
  | (Some err, v') =>
      match err with
      | ErrResponse status =>
          if decide (status = http_StatusNotFound) then (None, v') else (Some err, v')
      | _ => (Some err, v')
      end
  | (None, v') => (None, v')
  end.

(** *** AWSSecretManager.List *)

(** The [for _, each := range out.SecretList] loop: [*each.Name] and
    [*each.CreatedDate] are dereferenced unchecked. *)
Fixpoint AWSSecretManager_List_range (entries : list SecretListEntry) (keys : list Key)
    : Outcome (list Key) :=
  match entries with
  | [] => Ok keys
  | each :: rest =>
      match sl_Name each, sl_CreatedDate each with
      | Some name, Some createdDate =>
          let info := match sl_Description each with Some d => d | None => "" end in
          let owner := match sl_OwningService each with Some o => o | None => "" end in
          AWSSecretManager_List_range rest (keys ++ [mkKey name createdDate owner info])
      | _, _ => Panic "invalid memory address or nil pointer dereference"
      end
  end.

(** The [for !done] loop, one call of [ListSecrets] per iteration; [None]
    when [fuel] iterations were not enough. *)
Fixpoint AWSSecretManager_List_loop (fuel : nat) (m : SecretsManager)
    (nextToken : option string) (keys : list Key) : option (Outcome (list Key)) :=
  match fuel with
  | O => None
  | S fuel' =>
      let input := mkListSecretsInput 100 nextToken in  (* AWS API max is 100 *)
      match ListSecrets m input with
      | inl err => Some (Err err)
      | inr out =>
          match AWSSecretManager_List_range (SecretList out) keys with
          | Ok keys' =>
              match NextToken out with
              | None => Some (Ok keys')
              | Some token => AWSSecretManager_List_loop fuel' m (Some token) keys'
              end
          | Err err => Some (Err err)
          | Panic msg => Some (Panic msg)
          end
      end
  end.

(** List implements Backend. *)
Definition AWSSecretManager_List (fuel : nat) (m : SecretsManager) (p : Profile)
    : option (Outcome (list Key)) :=
  AWSSecretManager_List_loop fuel m None [].

(** The key a listed secret becomes. *)
Definition key_of_entry (each : SecretListEntry) : option Key :=
  match sl_Name each, sl_CreatedDate each with
  | Some name, Some createdDate =>
      Some (mkKey name createdDate
                  (match sl_OwningService each with Some o => o | None => "" end)
                  (match sl_Description each with Some d => d | None => "" end))
  | _, _ => None
  end.

(** The pages the service answers with, from [nextToken] to the page that
    carries no token. *)
Inductive pages_from (m : SecretsManager) : option string -> list ListSecretsOutput -> Prop :=
| pages_last nextToken out :
    ListSecrets m (mkListSecretsInput 100 nextToken) = inr out ->
    NextToken out = None ->
    pages_from m nextToken [out]
| pages_more nextToken out token rest :
    ListSecrets m (mkListSecretsInput 100 nextToken) = inr out ->
    NextToken out = Some token ->
    pages_from m (Some token) rest ->
    pages_from m nextToken (out :: rest).

(** *** [readFromStdIn] of the command layer

    [stdin] is the result of [ioutil.ReadAll(os.Stdin)]. *)
Definition readFromStdIn (stdin : error + bytes) : Ending string :=
  match stdin with
  | inl err => LogFatal ("Error while reading from standard in" ++ error_message err)
  | inr buffer =>
      (* remove newline added to std in from command execution *)
      match buffer !! (length buffer - 1) with
      | None => RuntimePanic "index out of range [-1]"  (* only when len(buffer) = 0 *)
      | Some c =>
          if decide (c = x0a)
          then Returns (string_of_bytes (take (length buffer - 1) buffer))
          else Returns (string_of_bytes buffer)
      end
  end.

(** The backend after [Put] of one item of a backup, failed or not. *)
Definition restore_step {S : Type}
    (put : S -> Profile -> string -> string -> bool -> option error * S)
    (target : Profile) (b : S) (kv : string * bytes) : S :=
  snd (put b target (kv.1 ++ "_restore")%string (string_of_bytes kv.2) false).

End KiyaRest.

(** ** Reference instances of the library parameters

    Small executable stand-ins for the libraries and services the store is
    parameterised by.  They satisfy the laws assumed of the real ones, and
    serve to run the model on concrete inputs; none of them is secure, and
    none is the real encoding. *)

Module Mock.

(** A key derivation that pads [password ++ salt] to [keyLen] bytes. *)
Definition argon2_Key (password salt : bytes) (time memory threads : N) (keyLen : nat)
    : bytes :=
  take keyLen (password ++ salt ++ repeat x00 keyLen).

(** A 16-byte tag that depends on key, nonce and associated data only. *)
Definition tag (key nonce ad : bytes) : bytes :=
  take Overhead (key ++ nonce ++ ad ++ repeat x00 Overhead).

Definition xseal (key nonce plaintext ad : bytes) : bytes :=
  plaintext ++ tag key nonce ad.

Definition xopen (key nonce ciphertext ad : bytes) : option bytes :=
  let n := length ciphertext - Overhead in
  if decide (drop n ciphertext = tag key nonce ad) then Some (take n ciphertext)
  else None.

(** A self-delimiting encoding of byte strings, numbers and records. *)
Fixpoint enc_bytes (b : bytes) : bytes :=
  match b with
  | [] => [";"%byte]
  | x :: rest => ","%byte :: x :: enc_bytes rest
  end.

Fixpoint dec_bytes (l : bytes) : option (bytes * bytes) :=
  match l with
  | [] => None
  | c :: rest =>
      if decide (c = ";"%byte) then Some ([], rest)
      else if decide (c = ","%byte) then
        match rest with
        | [] => None
        | x :: rest' =>
            match dec_bytes rest' with
            | Some (b, tl) => Some (x :: b, tl)
            | None => None
            end
        end
      else None
  end.

Fixpoint enc_nat (n : nat) : bytes :=
  match n with
  | O => [";"%byte]
  | S n' => "#"%byte :: enc_nat n'
  end.

Fixpoint dec_nat (l : bytes) : option (nat * bytes) :=
  match l with
  | [] => None
  | c :: rest =>
      if decide (c = ";"%byte) then Some (0, rest)
      else if decide (c = "#"%byte) then
        match dec_nat rest with
        | Some (n, tl) => Some (S n, tl)
        | None => None
        end
      else None
  end.

Fixpoint enc_pos (p : positive) : bytes :=
  match p with
  | xH => [";"%byte]
  | xO p' => "0"%byte :: enc_pos p'
  | xI p' => "1"%byte :: enc_pos p'
  end.

Fixpoint dec_pos (l : bytes) : option (positive * bytes) :=
  match l with
  | [] => None
  | c :: rest =>
      if decide (c = ";"%byte) then Some (xH, rest)
      else
        match dec_pos rest with
        | Some (p, tl) =>
            if decide (c = "0"%byte) then Some (xO p, tl)
            else if decide (c = "1"%byte) then Some (xI p, tl)
            else None
        | None => None
        end
  end.

Definition enc_time (t : Time) : bytes :=
  match t with
  | Z0 => ["="%byte]
  | Zpos p => "+"%byte :: enc_pos p
  | Zneg p => "-"%byte :: enc_pos p
  end.

Definition dec_time (l : bytes) : option (Time * bytes) :=
  match l with
  | [] => None
  | c :: rest =>
      if decide (c = "="%byte) then Some (Z0, rest)
      else
        match dec_pos rest with
        | Some (p, tl) =>
            if decide (c = "+"%byte) then Some (Zpos p, tl)
            else if decide (c = "-"%byte) then Some (Zneg p, tl)
            else None
        | None => None
        end
  end.

Definition enc_entry (e : FileStoreEntry) : bytes :=
  enc_bytes (Value e) ++
  enc_bytes (bytes_of_string (Name (KeyInfo e))) ++
  enc_time (CreatedAt (KeyInfo e)) ++
  enc_bytes (bytes_of_string (Owner (KeyInfo e))) ++
  enc_bytes (bytes_of_string (Info (KeyInfo e))).

Definition dec_entry (l : bytes) : option (FileStoreEntry * bytes) :=
  match dec_bytes l with
  | Some (value, l1) =>
      match dec_bytes l1 with
      | Some (name, l2) =>
          match dec_time l2 with
          | Some (createdAt, l3) =>
              match dec_bytes l3 with
              | Some (owner, l4) =>
                  match dec_bytes l4 with
                  | Some (info, l5) =>
                      Some (mkFileStoreEntry value
                              (mkKey (string_of_bytes name) createdAt
                                     (string_of_bytes owner) (string_of_bytes info)),
                            l5)
                  | None => None
                  end
              | None => None
              end
          | None => None
          end
      | None => None
      end
  | None => None
  end.

Fixpoint dec_entries (n : nat) (l : bytes) : option (list FileStoreEntry * bytes) :=
  match n with
  | O => Some ([], l)
  | S n' =>
      match dec_entry l with
      | Some (e, l1) =>
          match dec_entries n' l1 with
          | Some (es, l2) => Some (e :: es, l2)
          | None => None
          end
      | None => None
      end
  end.

Definition json_Marshal (store : list FileStoreEntry) : error + bytes :=
  inr (["["%byte] ++ (enc_nat (length store) ++ concat (map enc_entry store))
                  ++ ["]"%byte]).

Definition json_Unmarshal (data : bytes) : error + list FileStoreEntry :=
  match data with
  | c :: rest =>
      if decide (c = "["%byte) then
        match dec_nat rest with
        | Some (n, l1) =>
            match dec_entries n l1 with
            | Some (store, tl) =>
                if decide (tl = ["]"%byte]) then inr store
                else inl (ErrJSON "invalid character after array")
            | None => inl (ErrJSON "invalid array element")
            end
        | None => inl (ErrJSON "invalid array")
        end
      else inl (ErrJSON "invalid character looking for beginning of value")
  | [] => inl (ErrJSON "unexpected end of JSON input")
  end.

Definition json_exact (e : FileStoreEntry) : Prop := True.

(** A decoder of backup files that knows one shape only: a non-empty file
    is a single item named [Data]. *)
Definition json_Unmarshal_items (buf : bytes) : error + gmap string bytes :=
  if decide (buf = []) then inl (ErrJSON "unexpected end of JSON input")
  else inr {[ "Data" := buf ]}.

Definition range_items (items : gmap string bytes) : list (string * bytes) :=
  map_to_list items.

Definition path_Join (a b : string) : string := (a ++ "/" ++ b)%string.

(** The Vault server of the test suite: a map from secret path to the
    stored value; a read of a missing path answers 404. *)
Definition Vault : Type := gmap string string.

Definition KvV2Read (v : Vault) (path mount : string) : error + string :=
  match v !! path with
  | Some data => inr data
  | None => inl (ErrResponse 404)
  end.

Definition KvV2Write (v : Vault) (path : string) (req : KvV2WriteRequest)
    (mount : string) : option error * Vault :=
  (None, <[path := kv_value req]> v).

(** A Secrets Manager holding the current value of each secret:
    [PutSecretValue] stores a new current value for a secret that exists
    and fails for one that does not. *)
Definition SecretsManager : Type := gmap string string.

Definition GetSecretValue (m : SecretsManager) (id : string) : error + bytes :=
  match m !! id with
  | Some s => inr (bytes_of_string s)
  | None => inl (ErrResponse 400)
  end.

Definition PutSecretValue (m : SecretsManager) (input : PutSecretValueInput)
    : option error * SecretsManager :=
  match m !! SecretId input with
  | Some _ => (None, <[SecretId input := SecretString input]> m)
  | None => (Some (ErrResponse 400), m)
  end.

(** The instances. *)
Definition argon2 : Argon2 := mkArgon2 argon2_Key.
Definition xchacha : XChaCha20Poly1305 := mkXChaCha20Poly1305 xseal xopen.
Definition json : EncodingJSON :=
  mkEncodingJSON json_Marshal json_Unmarshal json_exact json_Unmarshal_items.
Definition maprange : MapRange := mkMapRange range_items.
Definition pathpkg : PathPkg := mkPathPkg path_Join.
Definition vault : VaultClient Vault := mkVaultClient Vault KvV2Read KvV2Write.
Definition secretsmanager : SecretsManagerClient SecretsManager :=
  mkSecretsManagerClient SecretsManager GetSecretValue PutSecretValue.

(** The rest of the Vault server of the test suite: a read answers with the
    data written, a listing with the keys below a path, a delete removes
    the path. *)
Definition KvV2Read_Data (v : Vault) (path mount : string)
    : error + gmap string Interface :=
  match v !! path with
  | Some s => inr {[ "value" := IfaceString s ]}
  | None => inl (ErrResponse 404)
  end.

Definition strip_prefix (pre s : string) : option string :=
  if String.prefix pre s
  then Some (String.substring (String.length pre) (String.length s - String.length pre) s)
  else None.

Definition KvV2List (v : Vault) (path mount : string) : error + list string :=
  match omap (fun kv => strip_prefix (path ++ "/") (fst kv)) (map_to_list v) with
  | [] => inl (ErrResponse 404)
  | names => inr names
  end.

Definition KvV2ReadMetadata (v : Vault) (path mount : string) : error + Time :=
  match v !! path with
  | Some _ => inr 1700000000%Z
  | None => inl (ErrResponse 404)
  end.

Definition KvV2DeleteMetadataAndAllVersions (v : Vault) (path mount : string)
    : option error * Vault :=
  (None, delete path v).

(** A Secrets Manager seen through [ListSecrets]: its pages; the token of
    page [i] is a string of [i] characters. *)
Fixpoint token (n : nat) : string :=
  match n with
  | O => ""
  | S n' => ("x" ++ token n')%string
  end.

Definition ListSecrets (pages : list (list SecretListEntry)) (input : ListSecretsInput)
    : error + ListSecretsOutput :=
  let i := match in_NextToken input with
           | None => 0
           | Some t => String.length t
           end in
  match pages !! i with
  | Some page =>
      inr (mkListSecretsOutput page
             (if decide (S i < length pages) then Some (token (S i)) else None))
  | None => inl (ErrResponse 400)
  end.

(** A decoder of backup files made of pairs of bytes: a one-letter name and
    a one-byte value. *)
Fixpoint decode_pairs (buf : bytes) : gmap string bytes :=
  match buf with
  | k :: v :: rest => <[string_of_bytes [k] := [v]]> (decode_pairs rest)
  | _ => ∅
  end.

Definition json_pairs : EncodingJSON :=
  mkEncodingJSON json_Marshal json_Unmarshal json_exact (fun buf => inr (decode_pairs buf)).

Definition vaultkv : VaultKV Vault :=
  mkVaultKV Vault KvV2Read_Data KvV2List KvV2ReadMetadata KvV2DeleteMetadataAndAllVersions.
Definition lister : SecretsManagerLister (list (list SecretListEntry)) :=
  mkSecretsManagerLister (list (list SecretListEntry)) ListSecrets.

End Mock.

(** ** A worked scenario on the reference instances *)

Section Scenario.

#[local] Existing Instance Mock.argon2.
#[local] Existing Instance Mock.xchacha.
#[local] Existing Instance Mock.json.
#[local] Existing Instance Mock.maprange.
#[local] Existing Instance Mock.pathpkg.
#[local] Existing Instance Mock.vault.
#[local] Existing Instance Mock.secretsmanager.

(** The store of the end-to-end example of the specification. *)
Definition demo_store : FileStore :=
  mkFileStore "/home/alice/demo.secrets.kiya" "demo" (bytes_of_string "hunter2").

Definition demo_profile : Profile := mkProfile "demo" "".

(** No store file yet, no faults, entropy for two [Put]s. *)
Definition fresh_world : World :=
  mkWorld None [] []
          [RandBytes (repeat x01 16); RandBytes (repeat x02 24);
           RandBytes (repeat x03 16); RandBytes (repeat x04 24)]
          1700000000%Z (Some "alice").

(** The world after [Put("db-pass", "s3cr3t")] and [Put("db-pass", "other")]. *)
Definition twice_put_world : World :=
  Eval vm_compute in
    snd (FileStore_Put demo_store "db-pass" "other"
           (snd (FileStore_Put demo_store "db-pass" "s3cr3t" fresh_world))).

Definition twice_put_records : list FileStoreEntry :=
  Eval vm_compute in
    match fst (getStore demo_store twice_put_world) with
    | Ok store => store
    | _ => []
    end.

Definition first_record : FileStoreEntry :=
  Eval vm_compute in
    match twice_put_records with
    | r :: _ => r
    | [] => mkFileStoreEntry [] (mkKey "" 0%Z "" "")
    end.

Definition second_record : FileStoreEntry :=
  Eval vm_compute in
    match twice_put_records with
    | _ :: r :: _ => r
    | _ => mkFileStoreEntry [] (mkKey "" 0%Z "" "")
    end.

(** What [encrypt] makes of ["s3cr3t"] in the fresh world. *)
Definition sealed_blob : bytes :=
  Eval vm_compute in
    match fst (encrypt (bytes_of_string "s3cr3t") (bytes_of_string "hunter2")
                       fresh_world) with
    | Ok blob => blob
    | _ => []
    end.

(** A store file that is not JSON. *)
Definition garbage : bytes := bytes_of_string "not json".

Definition garbage_world : World :=
  mkWorld (Some garbage) [] []
          [RandBytes (repeat x05 16); RandBytes (repeat x06 24)]
          1700000000%Z (Some "alice").

Definition short_blob : bytes := repeat x00 39.

(** A Vault and a Secrets Manager that already hold [db-pass]. *)
Definition demo_vault : Mock.Vault := {[ "demo/db-pass" := "old" ]}.
Definition demo_secrets : Mock.SecretsManager := {[ "db-pass" := "old" ]}.

(** An encrypted backup as the restore command meets it: opaque bytes. *)
Definition backup_file : bytes := bytes_of_string "<ciphertext><wrapped key>".

#[local] Existing Instance Mock.vaultkv.
#[local] Existing Instance Mock.lister.


(** A store whose first record of [db-pass] holds five bytes, before a
    sound record of the same name. *)
Definition tampered_records : list FileStoreEntry :=
  [mkFileStoreEntry (bytes_of_string "short") (mkKey "db-pass" 1600000000%Z "eve" "");
   first_record].

Definition tampered_world : World :=
  mkWorld (match Mock.json_Marshal tampered_records with
           | inr data => Some data
           | inl _ => None
           end)
          [] [] [] 1700000000%Z (Some "alice").

(** The store file cannot be examined: permission denied. *)
Definition no_access_world : World :=
  mkWorld None [] [Some 13] [RandBytes (repeat x01 16); RandBytes (repeat x02 24)]
          1700000000%Z (Some "alice").

(** The entropy source delivers 16 bytes, then only 8. *)
Definition no_entropy_world : World :=
  mkWorld None [] [] [RandBytes (repeat x01 16); RandBytes (repeat x02 8)]
          1700000000%Z (Some "alice").


Definition blob_of_45 : bytes := repeat x07 45.

(** A Vault with two secrets of project [demo]. *)
Definition two_secret_vault : Mock.Vault :=
  {[ "demo/db-pass" := "old"; "demo/api-key" := "k" ]}.

(** Two pages of secrets; the last one has no description. *)
Definition secret_pages : list (list SecretListEntry) :=
  [[mkSecretListEntry (Some "db-pass") (Some 1600000000%Z) (Some "database") None;
    mkSecretListEntry (Some "api-key") (Some 1600000001%Z) (Some "gateway") (Some "rds")];
   [mkSecretListEntry (Some "token") (Some 1600000002%Z) None None]].

(** The answers of the service for those pages, and the keys they hold. *)
Definition secret_outputs : list ListSecretsOutput :=
  [mkListSecretsOutput
     [mkSecretListEntry (Some "db-pass") (Some 1600000000%Z) (Some "database") None;
      mkSecretListEntry (Some "api-key") (Some 1600000001%Z) (Some "gateway") (Some "rds")]
     (Some "x");
   mkListSecretsOutput
     [mkSecretListEntry (Some "token") (Some 1600000002%Z) None None] None].

Definition secret_keys : list Key :=
  [mkKey "db-pass" 1600000000%Z "" "database";
   mkKey "api-key" 1600000001%Z "rds" "gateway";
   mkKey "token" 1600000002%Z "" ""].

(** A backup of two items, [a] and [b]. *)
Definition pairs_file : bytes := bytes_of_string "a1b2".

(** A backend whose [Put] fails on the key [b_restore] and records the
    others. *)
Definition picky_Put (calls : list (string * string)) (p : Profile)
    (key value : string) (overwrite : bool) : option error * list (string * string) :=
  if decide (key = "b_restore") then (Some (ErrAlreadyExists key), calls)
  else (None, calls ++ [(key, value)]).

End Scenario.

Section Properties.

Context {A2 : Argon2} {A2L : Argon2Laws A2}
        {XC : XChaCha20Poly1305} {XCL : XChaCha20Poly1305Laws XC}
        {EJ : EncodingJSON} {EJL : EncodingJSONLaws EJ}
        {MR : MapRange} {MRL : MapRangeLaws MR}
        {PP : PathPkg} {Vault : Type} {VC : VaultClient Vault}
        {SecretsManager : Type} {SM : SecretsManagerClient SecretsManager}.

(** ** Properties of the envelope cipher *)

Lemma same_files_trans w1 w2 w3 :
  same_files w1 w2 -> same_files w2 w3 -> same_files w1 w3.
Proof. intros (?&?&?&?&?) (?&?&?&?&?); repeat split; congruence. Qed.

Lemma makeNonce_Ok_inv len w salt w' :
  makeNonce len w = (Ok salt, w') ->
  length salt = len /\ same_files w w' /\
  exists bs, entropy w = RandBytes bs :: entropy w' /\ (len <= length bs)%nat /\
             salt = take len bs.
Proof.
  unfold makeNonce, rand_Read.
  destruct (entropy w) as [|[bs|errno] rest] eqn:He; simpl; try discriminate.
  case_decide as Hn; intros [= <- <-].
  rewrite length_take in Hn.
  assert (len <= length bs)%nat by lia.
  rewrite length_take_le, Nat.sub_diag, app_nil_r by done.
  split; [by apply length_take_le|]. split; [by repeat split|].
  exists bs. by repeat split.
Qed.

Lemma makeNonce_supplied len lens w :
  supplies (len :: lens) (entropy w) = true ->
  exists salt w', makeNonce len w = (Ok salt, w') /\ length salt = len /\
                  same_files w w' /\ supplies lens (entropy w') = true.
Proof.
  simpl. destruct (entropy w) as [|[bs|errno] rest] eqn:He; try discriminate.
  intros [Hlen Hrest]%andb_true_iff. apply Nat.leb_le in Hlen.
  exists (take len bs), (mkWorld (fs_file w) (fs_writes w) (fs_faults w) rest (clock w) (os_user w)).
  unfold makeNonce, rand_Read. rewrite He. simpl.
  rewrite length_take_le, Nat.sub_diag, app_nil_r by done.
  rewrite decide_True by done. by repeat split; try apply length_take_le.
Qed.

(** What [encrypt] returns, when it returns. *)
Lemma encrypt_Ok_inv data pass w blob w' :
  encrypt data pass w = (Ok blob, w') ->
  exists salt nonce,
    length salt = 16 /\ length nonce = 24 /\ same_files w w' /\
    blob = (salt ++ nonce) ++ xseal (argon2_Key pass salt 3%N (32 * 1024)%N 4%N 32) nonce data [].
Proof.
  unfold encrypt, bind, lift, ret.
  destruct (makeNonce 16 w) as [[salt| |] w1] eqn:H1; try discriminate.
  unfold chacha20poly1305_NewX. rewrite argon2_Key_length.
  rewrite decide_True by done.
  destruct (makeNonce 24 w1) as [[nonce| |] w2] eqn:H2; try discriminate.
  apply makeNonce_Ok_inv in H1 as (Hs & Hf1 & _).
  apply makeNonce_Ok_inv in H2 as (Hn & Hf2 & _).
  unfold cipher_Seal. rewrite decide_True by done. simpl.
  intros [= <- <-]. exists salt, nonce.
  split; [done|]. split; [done|]. split; [|done].
  by eapply same_files_trans.
Qed.

(** [encrypt] returns as soon as the entropy source delivers 16 and then 24
    bytes. *)
Lemma encrypt_supplied data pass lens w :
  supplies (16 :: 24 :: lens) (entropy w) = true ->
  exists blob w', encrypt data pass w = (Ok blob, w') /\
                  supplies lens (entropy w') = true.
Proof.
  intros Hs. apply makeNonce_supplied in Hs as (salt & w1 & H1 & Hl1 & _ & Hs).
  apply makeNonce_supplied in Hs as (nonce & w2 & H2 & Hl2 & _ & Hs).
  unfold encrypt, bind, lift, ret. rewrite H1.
  unfold chacha20poly1305_NewX. rewrite argon2_Key_length, decide_True by done.
  rewrite H2. unfold cipher_Seal. rewrite decide_True by done. eauto.
Qed.

Lemma decrypt_sealed salt nonce data pass :
  length salt = 16 -> length nonce = 24 ->
  decrypt ((salt ++ nonce) ++ xseal (argon2_Key pass salt 3%N (32 * 1024)%N 4%N 32) nonce data [])
          pass = Ok data.
Proof.
  intros Hs Hn. unfold decrypt.
  set (key := argon2_Key pass salt 3%N (32 * 1024)%N 4%N 32).
  set (ct := xseal key nonce data []).
  assert (Hlen : length ((salt ++ nonce) ++ ct) = 40 + length ct)
    by (rewrite !length_app; lia).
  destruct (Nat.ltb_spec (length ((salt ++ nonce) ++ ct)) 40) as [?|_]; [lia|].
  unfold slice. simpl (16 - 0). simpl (40 - 16). rewrite drop_0.
  rewrite <- (assoc_L (++)).
  rewrite take_app_length' by done.
  rewrite drop_app_length' by done.
  rewrite take_app_length' by done.
  rewrite (assoc_L (++)), drop_app_length' by (rewrite length_app; lia).
  fold key. unfold chacha20poly1305_NewX.
  rewrite decide_True by (subst key; by rewrite argon2_Key_length).
  unfold cipher_Open. rewrite decide_True by done.
  subst ct. rewrite xseal_length.
  destruct (Nat.ltb_spec (length data + Overhead) Overhead) as [?|_]; [lia|].
  simpl. rewrite xopen_xseal; try done.
  subst key. by rewrite argon2_Key_length.
Qed.

(** C1: AEAD round trip.  For every plaintext and passphrase, in every
    world whose entropy source delivers the salt and the nonce, [encrypt]
    returns a blob and [decrypt] of that blob under the same passphrase
    returns the plaintext. *)
Theorem decrypt_encrypt_roundtrip (B P : bytes) (w : World) :
  supplies [16; 24] (entropy w) = true ->
  exists blob w', encrypt B P w = (Ok blob, w') /\ decrypt blob P = Ok B.
Proof.
  intros Hs. destruct (encrypt_supplied B P [] w Hs) as (blob & w' & He & _).
  exists blob, w'. split; [done|].
  apply encrypt_Ok_inv in He as (salt & nonce & Hl1 & Hl2 & _ & ->).
  by apply decrypt_sealed.
Qed.

Lemma decrypt_no_panic data pass msg : decrypt data pass <> Panic msg.
Proof.
  unfold decrypt. case_match; [done|].
  unfold chacha20poly1305_NewX. rewrite argon2_Key_length, decide_True by done.
  unfold cipher_Open, slice.
  rewrite decide_True; [repeat case_match; done|].
  apply Nat.ltb_ge in H. rewrite length_take, length_drop. unfold NonceSizeX. lia.
Qed.

(** On a blob of at least 40 bytes, [decrypt] is the tag check of the
    bytes after the 40th, under the key derived from the first 16 bytes and
    with the next 24 bytes as nonce. *)
Lemma decrypt_long (P blob : bytes) :
  40 <= length blob ->
  decrypt blob P =
    cipher_Open (mkCipher (argon2_Key P (take 16 blob) 3%N (32 * 1024)%N 4%N 32))
                (take 24 (drop 16 blob)) (drop 40 blob) [].
Proof.
  intros Hge. unfold decrypt.
  destruct (Nat.ltb_spec (length blob) 40) as [?|_]; [lia|].
  unfold slice. simpl (16 - 0). simpl (40 - 16). rewrite drop_0.
  unfold chacha20poly1305_NewX.
  by rewrite argon2_Key_length, decide_True by done.
Qed.

(** When the primitive rejects the sealed bytes, [decrypt] fails with the
    authentication error of the cipher. *)
Lemma decrypt_rejected (P blob : bytes) :
  40 <= length blob ->
  xopen (argon2_Key P (take 16 blob) 3%N (32 * 1024)%N 4%N 32)
        (take 24 (drop 16 blob)) (drop 40 blob) [] = None ->
  decrypt blob P = Err ErrOpen /\ classify ErrOpen = Some AuthenticationError.
Proof.
  intros Hge Hrej. rewrite decrypt_long by done.
  unfold cipher_Open. simpl. rewrite Hrej.
  rewrite decide_True by (rewrite length_take, length_drop; unfold NonceSizeX; lia).
  by case_match.
Qed.

(** C7: a blob shorter than 40 bytes fails [decrypt] with the format
    error, which is not an authentication error; a blob of at least 40
    bytes is split into its first 16 bytes (the salt, from which the key is
    derived) and its next 24 bytes (the nonce), and only the rest is handed
    to the tag check. *)
Theorem decrypt_format_check (P blob : bytes) :
  (length blob < 40 ->
     decrypt blob P = Err ErrIncorrectFormat /\
     classify ErrIncorrectFormat = Some FormatError /\
     forall e, decrypt blob P = Err e -> classify e <> Some AuthenticationError) /\
  (40 <= length blob ->
     let salt := take 16 blob in
     let nonce := take 24 (drop 16 blob) in
     let sealed := drop 40 blob in
     length salt = 16 /\ length nonce = 24 /\ blob = salt ++ nonce ++ sealed /\
     decrypt blob P =
       cipher_Open (mkCipher (argon2_Key P salt 3%N (32 * 1024)%N 4%N 32))
                   nonce sealed [] /\
     decrypt blob P <> Err ErrIncorrectFormat).
Proof.
  split.
  - intros Hlt. unfold decrypt.
    destruct (Nat.ltb_spec (length blob) 40) as [_|?]; [|lia].
    split; [done|]. split; [done|]. by intros e [= <-].
  - intros Hge salt nonce sealed.
    assert (Hs : length salt = 16) by (subst salt; rewrite length_take; lia).
    assert (Hn : length nonce = 24)
      by (subst nonce; rewrite length_take, length_drop; lia).
    pose proof (decrypt_long P blob Hge) as Hd. fold salt nonce sealed in Hd.
    repeat split; try done.
    + subst salt nonce sealed.
      rewrite <- (take_drop 16 blob) at 1. f_equal.
      rewrite <- (take_drop 24 (drop 16 blob)) at 1. f_equal.
      by rewrite drop_drop.
    + rewrite Hd. unfold cipher_Open. rewrite decide_True by done.
      repeat case_match; done.
Qed.

(** C9: the blob returned by [encrypt] is 56 bytes longer than the
    plaintext (16 of salt, 24 of nonce, 16 of tag), hence strictly longer
    than the 40 bytes [decrypt] asks for. *)
Theorem encrypt_length (B P : bytes) (w : World) (blob : bytes) (w' : World) :
  encrypt B P w = (Ok blob, w') ->
  length blob = 56 + length B /\ 40 < length blob /\
  length (take 16 blob) = 16 /\ length (slice 16 40 blob) = 24 /\
  length (drop 40 blob) = length B + Overhead.
Proof.
  intros (salt & nonce & Hs & Hn & _ & ->)%encrypt_Ok_inv.
  unfold slice.
  rewrite ?length_take, ?length_drop, !length_app, xseal_length, Hs, Hn.
  unfold Overhead. lia.
Qed.

(** ** Properties of [Get] *)

Lemma Get_range_not_found d key storeData :
  Forall (fun data => Name (KeyInfo data) <> key) storeData ->
  Get_range d key storeData = Err (ErrKeyNotFound key).
Proof.
  induction 1 as [|data rest Hne _ IH]; simpl; [done|].
  by rewrite decide_False.
Qed.

Lemma Get_range_first d key before data after :
  Forall (fun data => Name (KeyInfo data) <> key) before ->
  Name (KeyInfo data) = key ->
  Get_range d key (before ++ data :: after) =
    match decrypt (Value data) (cryptoKey d) with
    | Ok plain => Ok plain
    | Err _ => Err ErrMessageAuthenticationFailed
    | Panic msg => Panic msg
    end.
Proof.
  intros Hb Hd. induction Hb as [|x before Hne _ IH]; simpl.
  - by rewrite decide_True.
  - by rewrite decide_False.
Qed.

(** C2: [Get] scans the loaded records in stored order.  With no record of
    that name it fails with the not-found error; otherwise the first record
    of that name decides: its decryption is returned, and when that
    decryption fails [Get] fails with an authentication error, which is
    not the not-found error. *)
Theorem Get_first_match (d : FileStore) (name : string) (w : World)
    (store : list FileStoreEntry) (w' : World) :
  getStore d w = (Ok store, w') ->
  (Forall (fun r => Name (KeyInfo r) <> name) store ->
     FileStore_Get d name w = (Err (ErrKeyNotFound name), w') /\
     classify (ErrKeyNotFound name) = Some NotFoundError) /\
  (forall before r after,
     store = before ++ r :: after ->
     Forall (fun r' => Name (KeyInfo r') <> name) before ->
     Name (KeyInfo r) = name ->
     (forall plain, decrypt (Value r) (cryptoKey d) = Ok plain ->
        FileStore_Get d name w = (Ok plain, w')) /\
     (forall e, decrypt (Value r) (cryptoKey d) = Err e ->
        FileStore_Get d name w = (Err ErrMessageAuthenticationFailed, w') /\
        classify ErrMessageAuthenticationFailed = Some AuthenticationError /\
        classify ErrMessageAuthenticationFailed <> Some NotFoundError) /\
     (forall msg, decrypt (Value r) (cryptoKey d) <> Panic msg)).
Proof.
  intros Hload. unfold FileStore_Get, bind, lift. rewrite Hload. split.
  - intros Hnone. by rewrite Get_range_not_found.
  - intros before r after -> Hb Hr.
    rewrite (Get_range_first d name before r after Hb Hr).
    split; [by intros plain ->|]. split; [by intros e ->|].
    intros msg. apply decrypt_no_panic.
Qed.

(** ** Reasoning about computations in [M] *)

Section Respects.
Context (R : World -> World -> Prop) `{!PreOrder R}.

Lemma respects_ret {A} (a : A) : respects R (ret a).
Proof. by intros w r w' [= _ <-]. Qed.


Lemma respects_lift {A} (o : Outcome A) : respects R (lift o).
Proof. by intros w r w' [= _ <-]. Qed.

Lemma respects_bind {A B} (m : M A) (k : A -> M B) :
  respects R m -> (forall a, respects R (k a)) -> respects R (bind m k).
Proof.
  intros Hm Hk w r w'. unfold bind.
  destruct (m w) as [[a|e|msg] w1] eqn:E; specialize (Hm _ _ _ E).
  - intros Hka. etrans; [done|]. by eapply Hk.
  - by intros [= _ <-].
  - by intros [= _ <-].
Qed.

End Respects.

(** ** The shape of the store file *)

#[local] Instance step_ok_preorder : PreOrder step_ok.
Proof.
  split.
  - intros w. split; [by left|]. exists []. by rewrite app_nil_r.
  - intros w1 w2 w3 [Hf1 (n1 & Hw1 & Hn1)] [Hf2 (n2 & Hw2 & Hn2)]. split.
    + destruct Hf2 as [Hf2|Hf2]; [rewrite Hf2; exact Hf1|by right].
    + exists (n1 ++ n2). rewrite Hw2, Hw1, (assoc_L (++)).
      split; [done|]. by apply Forall_app.
Qed.

Lemma next_fault_frame w f w' :
  next_fault w = (f, w') ->
  fs_file w' = fs_file w /\ fs_writes w' = fs_writes w /\
  entropy w' = entropy w /\ clock w' = clock w /\ os_user w' = os_user w.
Proof.
  unfold next_fault. destruct (fs_faults w); by intros [= <- <-].
Qed.









(** The two accumulating loops, in closed form. *)
Lemma List_loop storeData keys :
  fold_left (fun keys info => keys ++ [KeyInfo info]) storeData keys =
  keys ++ map KeyInfo storeData.
Proof.
  revert keys. induction storeData as [|info rest IH]; intros keys; simpl.
  - by rewrite app_nil_r.
  - by rewrite IH, <- (assoc_L (++)).
Qed.

Lemma Delete_loop key discStoreEntries acc :
  fold_left (fun acc entry =>
               if decide (Name (KeyInfo entry) <> key) then acc ++ [entry] else acc)
            discStoreEntries acc =
  acc ++ filter (fun entry => Name (KeyInfo entry) <> key) discStoreEntries.
Proof.
  revert acc. induction discStoreEntries as [|entry rest IH]; intros acc; simpl.
  - by rewrite app_nil_r.
  - rewrite IH, filter_cons. case_decide; [|done].
    by rewrite <- (assoc_L (++)).
Qed.















(** ** Runs without file system faults *)

Lemma createStoreIfNotExists_nofault d w :
  fs_faults w = [] -> createStoreIfNotExists d w = (Ok tt, created w).
Proof.
  destruct w as [[b|] ws fl en cl u]; simpl; intros ->; reflexivity.
Qed.

Lemma getStore_nofault d w :
  fs_faults w = [] ->
  getStore d w = (outcome_of (decode_file (fs_file w)), created w).
Proof.
  intros Hz. unfold getStore, bind.
  rewrite createStoreIfNotExists_nofault by done.
  destruct w as [[b|] ws fl en cl u]; simpl in *; subst; [|done].
  unfold ioutil_ReadFile. simpl.
  case_decide; [done|]. by destruct (json_Unmarshal b).
Qed.

Lemma created_frame w :
  fs_faults (created w) = fs_faults w /\ entropy (created w) = entropy w /\
  clock (created w) = clock w /\ os_user (created w) = os_user w /\
  decode_file (fs_file (created w)) = decode_file (fs_file w) /\
  created (created w) = created w.
Proof. by destruct w as [[b|] ws fl en cl u]. Qed.

Lemma ioutil_WriteFile_nofault data w :
  fs_faults w = [] ->
  ioutil_WriteFile data w =
    (Ok tt, mkWorld (Some data) (fs_writes w ++ [data]) [] (entropy w) (clock w) (os_user w)).
Proof. destruct w; simpl; intros ->; reflexivity. Qed.

(** One successful [Put]: the file then decodes to the old records followed
    by the new one, whose value decrypts to what was put. *)
Lemma FileStore_Put_nofault d key value lens w store :
  fs_faults w = [] ->
  supplies (16 :: 24 :: lens) (entropy w) = true ->
  decode_file (fs_file w) = inr store ->
  Forall json_exact store ->
  (forall blob, json_exact (new_entry w key blob)) ->
  exists blob w',
    FileStore_Put d key value w = (Ok tt, w') /\
    decode_file (fs_file w') = inr (store ++ [new_entry w key blob]) /\
    decrypt blob (cryptoKey d) = Ok (bytes_of_string value) /\
    fs_faults w' = [] /\ supplies lens (entropy w') = true /\
    clock w' = clock w /\ os_user w' = os_user w.
Proof.
  intros Hz Hs Hdec Hex Hnew.
  destruct (created_frame w) as (Hcf & Hce & Hcc & Hcu & Hcd & _).
  rewrite <- Hce in Hs.
  destruct (encrypt_supplied (bytes_of_string value) (cryptoKey d) lens _ Hs)
    as (blob & wb & Henc & Hs').
  pose proof Henc as (salt & nonce & Hl1 & Hl2 & (Hbf & Hbw & Hbz & Hbc & Hbu) & Hblob)%encrypt_Ok_inv.
  assert (Hzb : fs_faults wb = []) by congruence.
  assert (Hfile : exists b0, fs_file wb = Some b0 /\ decode_file (Some b0) = inr store).
  { assert (exists b0, fs_file (created w) = Some b0) as [b0 Hb0].
    { unfold created. destruct (fs_file w) eqn:Hf; simpl; by eexists. }
    exists b0. split; [congruence|]. by rewrite <- Hb0, Hcd. }
  destruct Hfile as (b0 & Hfb & Hdb).
  set (entry := new_entry w key blob).
  destruct (json_Marshal_total (store ++ [entry])) as [data Hm].
  { apply Forall_app. split; [done|]. apply Forall_singleton, Hnew. }
  exists blob. eexists. split; [|split; [|split; [|split; [|split; [|split]]]]].
  - unfold FileStore_Put, bind.
    rewrite createStoreIfNotExists_nofault, Henc by done.
    unfold user_Current, time_Now. simpl.
    rewrite getStore_nofault by done. rewrite Hfb, Hdb. simpl.
    replace (mkFileStoreEntry blob _) with entry.
    2:{ unfold entry, new_entry. by rewrite Hbc, Hbu, Hcc, Hcu. }
    rewrite Hm. apply ioutil_WriteFile_nofault.
    unfold created. by rewrite Hfb.
  - simpl.
    assert (Hne : store ++ [entry] <> []) by (destruct store; discriminate).
    destruct (json_Marshal_array _ _ Hne Hm) as (body & _ & ->).
    rewrite decide_False by done.
    apply json_Unmarshal_Marshal; [|done].
    apply Forall_app. split; [done|]. apply Forall_singleton, Hnew.
  - rewrite Hblob. by apply decrypt_sealed.
  - done.
  - simpl. unfold created. by rewrite Hfb.
  - simpl. unfold created. rewrite Hfb. congruence.
  - simpl. unfold created. rewrite Hfb. congruence.
Qed.

Lemma getStore_decoded d w store :
  fs_faults w = [] -> (exists b, fs_file w = Some b) ->
  decode_file (fs_file w) = inr store ->
  getStore d w = (Ok store, w).
Proof.
  intros Hz [b Hb] Hd. rewrite getStore_nofault, Hd by done.
  unfold created. by rewrite Hb.
Qed.


(** ** [Put] writes last *)

#[local] Instance untouched_preorder : PreOrder untouched.
Proof.
  split; [by intros w|].
  intros w1 w2 w3 [? ?] [? ?]. split; congruence.
Qed.

Lemma makeNonce_untouched len : respects untouched (makeNonce len).
Proof.
  intros w r w'. unfold makeNonce, rand_Read.
  destruct (entropy w) as [|[bs|errno] rest]; simpl;
    try case_decide; by intros [= _ <-].
Qed.

Lemma encrypt_untouched data pass : respects untouched (encrypt data pass).
Proof.
  unfold encrypt.
  repeat (first [apply respects_bind; [apply _| |intros ?]
                |apply makeNonce_untouched
                |apply respects_lift; apply _
                |apply respects_ret; apply _]).
Qed.

Lemma createStoreIfNotExists_existing d w b r w' :
  fs_file w = Some b -> createStoreIfNotExists d w = (r, w') ->
  untouched w w' /\ (r = Ok tt \/ exists errno, r = Err (ErrSyscall errno)).
Proof.
  destruct w as [f ws [|[errno|] fl] en cl u]; simpl; intros ->;
    unfold createStoreIfNotExists, try, os_Stat; simpl; intros [= <- <-];
    (split; [done|]); eauto.
Qed.

Lemma getStore_existing d w b r w' :
  fs_file w = Some b -> getStore d w = (r, w') -> untouched w w'.
Proof.
  intros Hb. unfold getStore, bind.
  destruct (createStoreIfNotExists d w) as [o wa] eqn:Hc.
  apply (createStoreIfNotExists_existing d w b) in Hc as [Hu _]; [|done].
  destruct o; [|by intros [= _ <-]..].
  unfold ioutil_ReadFile.
  destruct (next_fault wa) as [f wr] eqn:E.
  apply next_fault_frame in E as (Hf & Hw & _).
  assert (untouched wa wr) by done.
  assert (untouched w wr) by (by etrans).
  destruct f; [by intros [= _ <-]|].
  destruct (fs_file wr); [|by intros [= _ <-]].
  simpl. case_decide; [by intros [= _ <-]|].
  destruct (json_Unmarshal _); by intros [= _ <-].
Qed.

(** C10: [Put] on an existing store file rewrites it only as its last
    step.  When encryption fails (or panics), when loading the store fails,
    or when marshalling fails, [Put] ends with that failure and the file
    content is what it was; and whenever the file or the log of writes has
    changed, encryption, loading and marshalling had all succeeded and the
    single write is that of the marshalled sequence. *)
Theorem Put_writes_last (d : FileStore) (key value : string) (w : World) (b : bytes)
    (r : Outcome unit) (w' : World) :
  fs_file w = Some b ->
  FileStore_Put d key value w = (r, w') ->
  (forall wa o wb,
     createStoreIfNotExists d w = (Ok tt, wa) ->
     encrypt (bytes_of_string value) (cryptoKey d) wa = (o, wb) ->
     is_Ok o = false ->
     r <> Ok tt /\ w' = wb /\ fs_file w' = Some b /\ fs_writes w' = fs_writes w) /\
  (forall wa blob wb o wc,
     createStoreIfNotExists d w = (Ok tt, wa) ->
     encrypt (bytes_of_string value) (cryptoKey d) wa = (Ok blob, wb) ->
     getStore d wb = (o, wc) ->
     is_Ok o = false ->
     r <> Ok tt /\ w' = wc /\ fs_file w' = Some b /\ fs_writes w' = fs_writes w) /\
  (forall wa blob wb store wc err,
     createStoreIfNotExists d w = (Ok tt, wa) ->
     encrypt (bytes_of_string value) (cryptoKey d) wa = (Ok blob, wb) ->
     getStore d wb = (Ok store, wc) ->
     json_Marshal (store ++ [new_entry wb key blob]) = inl err ->
     r = Err err /\ w' = wc /\ fs_file w' = Some b /\ fs_writes w' = fs_writes w) /\
  ((r <> Ok tt /\ fs_file w' = Some b /\ fs_writes w' = fs_writes w) \/
   (exists wa blob wb store wc data,
      createStoreIfNotExists d w = (Ok tt, wa) /\
      encrypt (bytes_of_string value) (cryptoKey d) wa = (Ok blob, wb) /\
      getStore d wb = (Ok store, wc) /\
      json_Marshal (store ++ [new_entry wb key blob]) = inr data /\
      ioutil_WriteFile data wc = (r, w') /\
      fs_writes w' = fs_writes w ++ [data])).
Proof.
  intros Hb. unfold FileStore_Put, bind.
  destruct (createStoreIfNotExists d w) as [oa wa] eqn:Hc.
  pose proof (createStoreIfNotExists_existing d w b _ _ Hb Hc) as [[Hfa Hwa] Hoa].
  destruct oa as [[]|e|msg].
  2:{ intros [= <- <-]. repeat split; try done; try congruence.
      left. repeat split; try done; congruence. }
  2:{ destruct Hoa as [?|[? ?]]; done. }
  destruct (encrypt (bytes_of_string value) (cryptoKey d) wa) as [ob wb] eqn:He.
  pose proof (encrypt_untouched _ _ _ _ _ He) as [Hfb Hwb].
  assert (Hbb : fs_file wb = Some b) by congruence.
  destruct ob as [blob|e|msg].
  2,3: intros [= <- <-];
    (split; [intros ? ? ? [= <-]; rewrite He; intros [= <- <-] _;
             repeat split; congruence|]);
    (split; [intros ? ? ? ? ? [= <-]; rewrite He; congruence|]);
    (split; [intros ? ? ? ? ? ? [= <-]; rewrite He; congruence|]);
    left; repeat split; congruence.
  unfold user_Current, time_Now. simpl.
  destruct (getStore d wb) as [oc wc] eqn:Hg.
  pose proof (getStore_existing d wb b _ _ Hbb Hg) as [Hfc Hwc].
  destruct oc as [store|e|msg].
  2,3: intros [= <- <-];
    (split; [intros ? ? ? [= <-]; rewrite He; intros [= <- <-]; done|]);
    (split; [intros ? ? ? ? ? [= <-]; rewrite He; intros [= <- <-];
             rewrite Hg; intros [= <- <-] _; repeat split; congruence|]);
    (split; [intros ? ? ? ? ? ? [= <-]; rewrite He; intros [= <- <-];
             rewrite Hg; congruence|]);
    left; repeat split; congruence.
  simpl. fold (new_entry wb key blob).
  destruct (json_Marshal (store ++ [new_entry wb key blob])) as [err|data] eqn:Hm.
  - intros [= <- <-].
    split; [intros ? ? ? [= <-]; rewrite He; intros [= <- <-]; done|].
    split; [intros ? ? ? ? ? [= <-]; rewrite He; intros [= <- <-];
            rewrite Hg; intros [= <- <-]; done|].
    split; [intros ? ? ? ? ? ? [= <-]; rewrite He; intros [= <- <-];
            rewrite Hg; intros [= <- <-]; rewrite Hm; intros [= <-];
            repeat split; congruence|].
    left. repeat split; congruence.
  - intros Hwr.
    split; [intros ? ? ? [= <-]; rewrite He; intros [= <- <-]; done|].
    split; [intros ? ? ? ? ? [= <-]; rewrite He; intros [= <- <-];
            rewrite Hg; intros [= <- <-]; done|].
    split; [intros ? ? ? ? ? ? [= <-]; rewrite He; intros [= <- <-];
            rewrite Hg; intros [= <- <-]; rewrite Hm; done|].
    right. exists wa, blob, wb, store, wc, data.
    repeat split; try done.
    unfold ioutil_WriteFile in Hwr.
    destruct (next_fault wc) as [f wn] eqn:E.
    apply next_fault_frame in E as (_ & Hwn & _).
    destruct f; injection Hwr as _ <-; simpl; congruence.
Qed.

(** ** The overwrite flag of [Put] *)

(** C4, as the code has it: [VaultStore.Put] with [overwrite = false]
    fails, writing nothing, when the secret exists, and issues the write
    when the secret is absent or [overwrite = true];
    [AWSSecretManager.Put] issues [PutSecretValue] whatever the flag;
    the local store has no flag and appends a record even when one of that
    name is already stored. *)
Theorem Put_overwrite_by_backend :
  honors_overwrite VaultStore_CheckExists VaultStore_Put /\
  (forall v p key value,
     (VaultStore_CheckExists v p key = inr true ->
        VaultStore_Put v p key value false = (Some (ErrAlreadyExists key), v)) /\
     (VaultStore_CheckExists v p key = inr false ->
        VaultStore_Put v p key value false =
          KvV2Write v (path_Join (ProjectID p) key) (mkKvV2WriteRequest value)
                    (getMountPath p)) /\
     VaultStore_Put v p key value true =
       KvV2Write v (path_Join (ProjectID p) key) (mkKvV2WriteRequest value)
                 (getMountPath p)) /\
  (forall m p key value overwrite,
     AWSSecretManager_Put m p key value overwrite =
       PutSecretValue m (mkPutSecretValueInput key value)) /\
  (forall d key value w store,
     fs_faults w = [] ->
     supplies [16; 24] (entropy w) = true ->
     decode_file (fs_file w) = inr store ->
     Forall json_exact store ->
     (forall blob, json_exact (new_entry w key blob)) ->
     exists blob w',
       FileStore_Put d key value w = (Ok tt, w') /\
       decode_file (fs_file w') = inr (store ++ [new_entry w key blob])).
Proof.
  split; [|split; [|split]].
  - intros v p key value Hex. exists (ErrAlreadyExists key).
    unfold VaultStore_Put. simpl. by rewrite Hex.
  - intros v p key value. unfold VaultStore_Put, VaultStore_write. simpl.
    split; [by intros ->|]. split; [by intros ->|done].
  - intros m p key value overwrite. unfold AWSSecretManager_Put.
    by destruct (PutSecretValue m _) as [[err|] m'].
  - intros d key value w store Hz Hs Hd Hex Hnew.
    destruct (FileStore_Put_nofault d key value [] w store Hz Hs Hd Hex Hnew)
      as (blob & w' & HP & Hd' & _).
    by exists blob, w'.
Qed.

(** ** [restore] *)

Lemma restore_range_recording target items calls :
  restore_range recording_Put target items calls =
    ([], calls ++ map (fun kv => ((kv.1 ++ "_restore")%string, string_of_bytes kv.2, false))
                      items).
Proof.
  revert calls. induction items as [|[k v] items IH]; intros calls; simpl.
  - by rewrite app_nil_r.
  - rewrite IH. by rewrite <- (assoc_L (++)).
Qed.

(** C3, what the code does instead: [restore] takes no private key and
    opens nothing.  A file that does not decode as a JSON object of byte
    strings ends the command with the decode failure, and every value of one
    that does is stored exactly as decoded, under [name_restore], never
    overwriting. *)
Theorem restore_stores_decoded_bytes (target : Profile) (buf : bytes) :
  (forall err, json_Unmarshal_items buf = inl err ->
     restore recording_Put target (inr buf) [] =
       Fatal ("decode failed, " ++ error_message err)%string) /\
  (forall items, json_Unmarshal_items buf = inr items ->
     exists calls,
       restore recording_Put target (inr buf) [] = Restored (size items) [] calls /\
       calls ≡ₚ map (fun kv => ((kv.1 ++ "_restore")%string, string_of_bytes kv.2, false))
                    (map_to_list items)).
Proof.
  unfold restore. split.
  - by intros err ->.
  - intros items ->. rewrite restore_range_recording. simpl.
    eexists. split; [done|]. by rewrite range_items_perm.
Qed.

End Properties.

(** * Further properties of the code *)

Section Coverage.

Context {A2 : Argon2} {A2L : Argon2Laws A2}
        {XC : XChaCha20Poly1305} {XCL : XChaCha20Poly1305Laws XC}
        {EJ : EncodingJSON} {EJL : EncodingJSONLaws EJ}
        {MR : MapRange} {MRL : MapRangeLaws MR}
        {PP : PathPkg} {Vault : Type} {VC : VaultClient Vault} {VK : VaultKV Vault}
        {SecretsManager : Type} {SM : SecretsManagerClient SecretsManager}
        {SL : SecretsManagerLister SecretsManager}.

#[local] Existing Instance untouched_preorder.

(** ** The envelope cipher *)

Lemma makeNonce_cases len w :
  (exists salt w', makeNonce len w = (Ok salt, w') /\
                   supplies [len] (entropy w) = true) \/
  (exists msg w', makeNonce len w = (Panic msg, w') /\
                  supplies [len] (entropy w) = false /\ untouched w w').
Proof.
  unfold makeNonce, rand_Read. simpl.
  destruct (entropy w) as [|[bs|errno] rest]; simpl.
  - right. by eexists _, _.
  - rewrite length_take. case_decide as Hn.
    + left. eexists _, _. split; [done|].
      rewrite andb_true_r. apply Nat.leb_le. lia.
    + right. eexists _, _. split; [done|]. split; [|done].
      rewrite andb_true_r. apply Nat.leb_gt. lia.
  - right. by eexists _, _.
Qed.

(** X1: [makeNonce] hands out exactly [len] bytes, the first [len] that
    the entropy source delivered, or it panics: it never returns an error
    and never a buffer filled in part. *)
Theorem makeNonce_all_or_panic (len : nat) (w : World) :
  (forall salt w', makeNonce len w = (Ok salt, w') ->
     length salt = len /\
     exists bs, entropy w = RandBytes bs :: entropy w' /\ len <= length bs /\
                salt = take len bs) /\
  (forall e w', makeNonce len w <> (Err e, w')) /\
  (supplies [len] (entropy w) = false ->
     exists msg w', makeNonce len w = (Panic msg, w') /\ untouched w w').
Proof.
  split; [|split].
  - intros salt w' Hok. by apply makeNonce_Ok_inv in Hok as (? & _ & ?).
  - intros e w' Herr.
    destruct (makeNonce_cases len w) as [(? & ? & H & _)|(? & ? & H & _)]; congruence.
  - intros Hno.
    destruct (makeNonce_cases len w) as [(? & ? & _ & H)|(msg & w' & H & _ & Hu)];
      [congruence|by exists msg, w'].
Qed.

Lemma encrypt_cases data pass w :
  (exists blob w', encrypt data pass w = (Ok blob, w') /\
                   supplies [16; 24] (entropy w) = true) \/
  (exists msg w', encrypt data pass w = (Panic msg, w') /\
                  supplies [16; 24] (entropy w) = false /\ untouched w w').
Proof.
  destruct (supplies [16; 24] (entropy w)) eqn:Hs.
  - left. destruct (encrypt_supplied data pass [] w Hs) as (blob & w' & He & _).
    by exists blob, w'.
  - right. unfold encrypt, bind.
    destruct (makeNonce_cases 16 w) as [(salt & w1 & H1 & Hs1)|(msg & w1 & H1 & _ & Hu)].
    + rewrite H1. unfold lift, chacha20poly1305_NewX.
      rewrite argon2_Key_length, decide_True by done.
      pose proof H1 as (_ & (Hf & Hw & _) & bs & He & _)%makeNonce_Ok_inv.
      assert (Hs2 : supplies [24] (entropy w1) = false).
      { simpl in Hs, Hs1. rewrite He in Hs, Hs1.
        rewrite andb_true_r in Hs1. rewrite Hs1 in Hs. exact Hs. }
      destruct (makeNonce_cases 24 w1) as [(? & ? & _ & ?)|(msg & w2 & H2 & _ & Hu2)];
        [congruence|].
      rewrite H2. exists msg, w2. split; [done|]. split; [done|].
      destruct Hu2. split; congruence.
    + rewrite H1. by exists msg, w1.
Qed.


(** X3: [decrypt] never panics, and it fails in two ways only: with the
    format error, exactly on blobs shorter than 40 bytes, or with the
    cipher's authentication error; a blob of 40 to 55 bytes, too short to
    hold a tag, always fails with the latter. *)
Theorem decrypt_error_kinds (data pass : bytes) :
  (forall msg, decrypt data pass <> Panic msg) /\
  (forall e, decrypt data pass = Err e ->
     (e = ErrIncorrectFormat /\ length data < 40) \/
     (e = ErrOpen /\ 40 <= length data)) /\
  (40 <= length data < 56 -> decrypt data pass = Err ErrOpen).
Proof.
  split; [apply decrypt_no_panic|]. split.
  - intros e He. destruct (Nat.lt_ge_cases (length data) 40) as [Hlt|Hge].
    + left. split; [|done]. unfold decrypt in He.
      destruct (Nat.ltb_spec (length data) 40); [|lia]. congruence.
    + right. split; [|done]. rewrite decrypt_long in He by done.
      unfold cipher_Open in He. repeat case_match; congruence.
  - intros [Hge Hlt]. rewrite decrypt_long by done. unfold cipher_Open.
    rewrite decide_True by (rewrite length_take, length_drop; unfold NonceSizeX; lia).
    simpl.
    destruct (Nat.ltb_spec (length (drop 40 data)) Overhead) as [_|Hle]; [done|].
    rewrite length_drop in Hle. unfold Overhead in Hle. lia.
Qed.

(** ** Reading the store *)

(** X4: [Get] hides why decryption failed.  When the first record of the
    name holds a value shorter than 40 bytes, [decrypt] reports the format
    error but [Get] reports the authentication failure; later records of
    the same name are not tried. *)
Theorem Get_masks_format_error (d : FileStore) (name : string) (w w' : World)
    (before : list FileStoreEntry) (r : FileStoreEntry) (after : list FileStoreEntry) :
  getStore d w = (Ok (before ++ r :: after), w') ->
  Forall (fun r' => Name (KeyInfo r') <> name) before ->
  Name (KeyInfo r) = name ->
  length (Value r) < 40 ->
  decrypt (Value r) (cryptoKey d) = Err ErrIncorrectFormat /\
  FileStore_Get d name w = (Err ErrMessageAuthenticationFailed, w').
Proof.
  intros Hload Hb Hr Hshort.
  assert (Hdec : decrypt (Value r) (cryptoKey d) = Err ErrIncorrectFormat).
  { unfold decrypt. destruct (Nat.ltb_spec (length (Value r)) 40); [done|lia]. }
  split; [done|].
  unfold FileStore_Get, bind, lift. rewrite Hload.
  by rewrite (Get_range_first d name before r after Hb Hr), Hdec.
Qed.

Lemma existsb_name key (store : list FileStoreEntry) :
  existsb (fun each => bool_decide (Name (KeyInfo each) = key)) store = true <->
  key ∈ map Name (map KeyInfo store).
Proof.
  induction store as [|e store IH]; simpl.
  - split; [done|]. by intros ?%elem_of_nil.
  - rewrite orb_true_iff, IH, elem_of_cons, bool_decide_eq_true.
    split; (intros [Heq|Hin]; [left; by symmetry|by right]).
Qed.

Lemma Get_range_found d key (store : list FileStoreEntry) :
  key ∈ map Name (map KeyInfo store) ->
  Get_range d key store <> Err (ErrKeyNotFound key).
Proof.
  induction store as [|e store IH]; simpl.
  - by intros ?%elem_of_nil.
  - intros Hin. case_decide as Hn.
    + by destruct (decrypt (Value e) (cryptoKey d)).
    + apply IH. apply elem_of_cons in Hin as [?|?]; [congruence|done].
Qed.

(** X5: [CheckExists], [List] and [Get] agree.  On the same loaded records,
    [List] returns their metadata in stored order, [CheckExists] answers
    [true] exactly for the names [List] shows, and [Get] fails with the
    not-found error exactly for the names [CheckExists] denies. *)
Theorem CheckExists_List_Get_agree (d : FileStore) (key : string) (w w' : World)
    (store : list FileStoreEntry) :
  getStore d w = (Ok store, w') ->
  FileStore_List d w = (Ok (map KeyInfo store), w') /\
  exists b, FileStore_CheckExists d key w = (Ok b, w') /\
            (b = true <-> key ∈ map Name (map KeyInfo store)) /\
            (b = false <-> FileStore_Get d key w = (Err (ErrKeyNotFound key), w')).
Proof.
  intros Hload. split.
  - unfold FileStore_List, bind, ret. by rewrite Hload, List_loop.
  - eexists. split; [|split].
    + unfold FileStore_CheckExists, bind, ret. by rewrite Hload.
    + apply existsb_name.
    + unfold FileStore_Get, bind, lift. rewrite Hload.
      destruct (existsb _ store) eqn:Hex.
      * split; [done|]. intros [= Hg].
        apply existsb_name in Hex. by apply (Get_range_found d) in Hex.
      * split; [|done]. intros _. f_equal. apply Get_range_not_found.
        apply Forall_forall. intros e He Hn.
        assert (existsb (fun each => bool_decide (Name (KeyInfo each) = key)) store = true);
          [|congruence].
        apply existsb_exists. exists e. split; [by apply list_elem_of_In|].
        by apply bool_decide_eq_true.
Qed.

(** ** Deleting *)

Lemma created_exists w : exists b, fs_file (created w) = Some b.
Proof. unfold created. destruct (fs_file w) eqn:Hf; simpl; by eexists. Qed.

Lemma created_existing w b : fs_file w = Some b -> created w = w.
Proof. unfold created. by intros ->. Qed.

Lemma Forall_filter_keep {A} (P Q : A -> Prop) `{!forall x, Decision (Q x)} (l : list A) :
  Forall P l -> Forall P (filter Q l).
Proof.
  rewrite !Forall_forall. intros Hl x Hx. apply Hl.
  by apply list_elem_of_filter in Hx as [_ ?].
Qed.

Lemma elem_of_map {A B} (f : A -> B) (l : list A) (y : B) :
  y ∈ map f l <-> exists x, y = f x /\ x ∈ l.
Proof.
  induction l as [|a l IH]; simpl.
  - split; [by intros ?%elem_of_nil|by intros (? & _ & ?%elem_of_nil)].
  - rewrite elem_of_cons, IH. split.
    + intros [->|(x & -> & Hx)]; [exists a|exists x]; split; try done;
        apply elem_of_cons; auto.
    + intros (x & -> & [->|Hx]%elem_of_cons); [by left|right; by exists x].
Qed.

(** One [Delete] without faults: the file then decodes to the records of
    the other names. *)
Lemma FileStore_Delete_nofault d key w store :
  fs_faults w = [] ->
  decode_file (fs_file w) = inr store ->
  Forall json_exact store ->
  exists w',
    FileStore_Delete d key w = (Ok tt, w') /\
    decode_file (fs_file w') =
      inr (filter (fun entry => Name (KeyInfo entry) <> key) store) /\
    (exists b, fs_file w' = Some b) /\
    fs_faults w' = [] /\ entropy w' = entropy w /\
    clock w' = clock w /\ os_user w' = os_user w.
Proof.
  intros Hz Hd Hex.
  destruct (created_frame w) as (Hcf & Hce & Hcc & Hcu & _ & _).
  assert (Hzc : fs_faults (created w) = []) by congruence.
  unfold FileStore_Delete, bind.
  rewrite getStore_nofault, Hd by done. simpl. rewrite Delete_loop. simpl.
  set (kept := filter (fun entry => Name (KeyInfo entry) <> key) store).
  assert (Hkept : Forall json_exact kept) by (by apply Forall_filter_keep).
  destruct kept as [|e kept'] eqn:Hk.
  - simpl. eexists. split; [by apply ioutil_WriteFile_nofault|].
    simpl. repeat split; try done. by eexists.
  - simpl length.
    destruct (Nat.ltb_spec 0 (S (length kept'))) as [_|?]; [|lia].
    destruct (json_Marshal_total (e :: kept') Hkept) as [data Hm]. rewrite Hm.
    eexists. split; [by apply ioutil_WriteFile_nofault|]. simpl.
    destruct (json_Marshal_array (e :: kept') data ltac:(discriminate) Hm)
      as (body & _ & Hdata).
    split.
    + rewrite decide_False by (rewrite Hdata; discriminate).
      by apply json_Unmarshal_Marshal.
    + repeat split; try done. by eexists.
Qed.

Lemma getStore_records d w w0 store :
  fs_faults w = [] -> getStore d w = (Ok store, w0) ->
  decode_file (fs_file w) = inr store.
Proof.
  intros Hz Hload. rewrite getStore_nofault in Hload by done.
  destruct (decode_file (fs_file w)); simpl in Hload; congruence.
Qed.

Lemma Get_range_filter d key other (store : list FileStoreEntry) :
  other <> key ->
  Get_range d other (filter (fun entry => Name (KeyInfo entry) <> key) store) =
  Get_range d other store.
Proof.
  intros Hne. induction store as [|e store IH]; [done|].
  rewrite filter_cons. case_decide as Hk; simpl.
  - by rewrite IH.
  - rewrite IH. by rewrite decide_False by congruence.
Qed.

Lemma filter_none_match key (store : list FileStoreEntry) :
  Forall (fun r => Name (KeyInfo r) <> key) store ->
  filter (fun entry => Name (KeyInfo entry) <> key) store = store.
Proof.
  induction 1 as [|e store He _ IH]; [done|].
  by rewrite filter_cons, decide_True, IH.
Qed.

Lemma filter_filter_name key (store : list FileStoreEntry) :
  Forall (fun r => Name (KeyInfo r) <> key)
         (filter (fun entry => Name (KeyInfo entry) <> key) store).
Proof.
  apply Forall_forall. intros e He. by apply list_elem_of_filter in He as [? _].
Qed.

(** X6: [Delete] removes every record of the name and nothing else.
    Without faults, the records loaded afterwards are the others, in their
    order; the name then no longer exists and [Get] of it is not found,
    while [Get] of any other name answers as before. *)
Theorem Delete_removes_every_match (d : FileStore) (key : string) (w w0 : World)
    (store : list FileStoreEntry) :
  fs_faults w = [] ->
  getStore d w = (Ok store, w0) ->
  Forall json_exact store ->
  exists w',
    FileStore_Delete d key w = (Ok tt, w') /\
    getStore d w' = (Ok (filter (fun r => Name (KeyInfo r) <> key) store), w') /\
    FileStore_CheckExists d key w' = (Ok false, w') /\
    FileStore_Get d key w' = (Err (ErrKeyNotFound key), w') /\
    forall other, other <> key ->
      fst (FileStore_Get d other w') = fst (FileStore_Get d other w).
Proof.
  intros Hz Hload Hex.
  pose proof (getStore_records d w w0 store Hz Hload) as Hd.
  destruct (FileStore_Delete_nofault d key w store Hz Hd Hex)
    as (w' & HD & Hd' & Hb' & Hz' & _).
  pose proof (getStore_decoded d w' _ Hz' Hb' Hd') as Hg.
  pose proof (filter_filter_name key store) as Hnone.
  exists w'. split; [done|]. split; [done|]. split; [|split].
  - unfold FileStore_CheckExists, bind, ret. rewrite Hg. do 2 f_equal.
    apply not_true_is_false. intros Hin%existsb_name.
    apply elem_of_map in Hin as (k & -> & Hin).
    apply elem_of_map in Hin as (e & -> & Hin).
    by apply (proj1 (Forall_forall _ _) Hnone e).
  - unfold FileStore_Get, bind, lift. rewrite Hg.
    by rewrite Get_range_not_found.
  - intros other Hne. unfold FileStore_Get, bind, lift. rewrite Hg, Hload. simpl.
    by apply Get_range_filter.
Qed.

(** X7: [Delete] is idempotent.  Deleting a name the store does not hold
    succeeds and leaves the loaded records as they were; and a second
    [Delete] of the same name changes nothing the first one left. *)
Theorem Delete_idempotent (d : FileStore) (key : string) (w w0 : World)
    (store : list FileStoreEntry) :
  fs_faults w = [] ->
  getStore d w = (Ok store, w0) ->
  Forall json_exact store ->
  exists w1 w2,
    FileStore_Delete d key w = (Ok tt, w1) /\
    FileStore_Delete d key w1 = (Ok tt, w2) /\
    fst (getStore d w2) = fst (getStore d w1) /\
    fs_file w2 = fs_file w1 /\
    (Forall (fun r => Name (KeyInfo r) <> key) store ->
       getStore d w1 = (Ok store, w1)).
Proof.
  intros Hz Hload Hex.
  pose proof (getStore_records d w w0 store Hz Hload) as Hd.
  destruct (FileStore_Delete_nofault d key w store Hz Hd Hex)
    as (w1 & HD1 & Hd1 & Hb1 & Hz1 & _).
  set (kept := filter (fun r => Name (KeyInfo r) <> key) store) in *.
  assert (Hk : Forall json_exact kept) by (by apply Forall_filter_keep).
  destruct (FileStore_Delete_nofault d key w1 kept Hz1 Hd1 Hk)
    as (w2 & HD2 & Hd2 & Hb2 & Hz2 & _).
  rewrite (filter_none_match key kept (filter_filter_name key store)) in Hd2.
  pose proof (getStore_decoded d w1 _ Hz1 Hb1 Hd1) as Hg1.
  pose proof (getStore_decoded d w2 _ Hz2 Hb2 Hd2) as Hg2.
  exists w1, w2. split; [done|]. split; [done|]. split; [by rewrite Hg1, Hg2|].
  split.
  - (* both files are the marshalling of the same records *)
    revert HD2. unfold FileStore_Delete, bind. rewrite Hg1. simpl.
    rewrite Delete_loop. simpl.
    rewrite (filter_none_match key kept (filter_filter_name key store)).
    revert HD1. unfold FileStore_Delete, bind.
    rewrite getStore_nofault, Hd by done. simpl. rewrite Delete_loop. simpl.
    fold kept.
    destruct (0 <? length kept)%nat.
    + destruct (json_Marshal kept) as [err|data]; [by intros [=]|].
      rewrite !ioutil_WriteFile_nofault by (done || by destruct (created_frame w) as (-> & _)).
      by intros [= <-] [= <-].
    + rewrite !ioutil_WriteFile_nofault by (done || by destruct (created_frame w) as (-> & _)).
      by intros [= <-] [= <-].
  - intros Hnone. subst kept. by rewrite (filter_none_match key store Hnone) in Hg1.
Qed.


(** ** What the operations leave on disk *)

Lemma bind_getStore_untouched {A} d (k : list FileStoreEntry -> M A) w b r w' :
  fs_file w = Some b ->
  (forall store, respects untouched (k store)) ->
  bind (getStore d) k w = (r, w') -> untouched w w'.
Proof.
  intros Hb Hk. unfold bind.
  destruct (getStore d w) as [o w1] eqn:Hg.
  pose proof (getStore_existing d w b _ _ Hb Hg) as Hu.
  destruct o as [store|e|msg]; [|by intros [= _ <-]..].
  intros Hr. etrans; [exact Hu|]. by eapply Hk.
Qed.

(** X9: on a store file that exists, [Get], [List] and [CheckExists] only
    read: whatever the faults and whatever they return, the content of the
    file is what it was and nothing was written. *)
Theorem reads_leave_the_file (d : FileStore) (key : string) (w : World) (b : bytes) :
  fs_file w = Some b ->
  untouched w (snd (FileStore_Get d key w)) /\
  untouched w (snd (FileStore_List d w)) /\
  untouched w (snd (FileStore_CheckExists d key w)).
Proof.
  intros Hb. split; [|split].
  - destruct (FileStore_Get d key w) as [r w'] eqn:E.
    eapply (bind_getStore_untouched d _ w b r w' Hb); [|exact E].
    intros store. apply respects_lift, _.
  - destruct (FileStore_List d w) as [r w'] eqn:E.
    eapply (bind_getStore_untouched d _ w b r w' Hb); [|exact E].
    intros store. apply respects_ret, _.
  - destruct (FileStore_CheckExists d key w) as [r w'] eqn:E.
    eapply (bind_getStore_untouched d _ w b r w' Hb); [|exact E].
    intros store. apply respects_ret, _.
Qed.

(** X10: reading a store that does not exist creates it.  Without faults,
    [Get], [List] and [CheckExists] on a missing file each leave a file of
    zero bytes behind, and answer not found, the empty list and [false]. *)
Theorem reads_create_the_file (d : FileStore) (key : string) (w : World) :
  fs_file w = None -> fs_faults w = [] ->
  FileStore_Get d key w = (Err (ErrKeyNotFound key), created w) /\
  FileStore_List d w = (Ok [], created w) /\
  FileStore_CheckExists d key w = (Ok false, created w) /\
  fs_file (created w) = Some [] /\
  fs_writes (created w) = fs_writes w ++ [[]].
Proof.
  intros Hf Hz.
  assert (Hg : getStore d w = (Ok [], created w)).
  { rewrite getStore_nofault by done. by rewrite Hf. }
  unfold FileStore_Get, FileStore_List, FileStore_CheckExists, bind.
  rewrite Hg. unfold created. rewrite Hf. by repeat split.
Qed.

(** X11: a store file that does not parse stops every operation and is
    left alone.  Without faults, on a non-empty file that [json.Unmarshal]
    rejects, [Get], [List], [CheckExists] and [Delete] fail with the error
    of the decoder, [Put] fails too (with that error when the entropy
    source delivers), and none of them writes. *)
Theorem corrupt_store_is_left_alone (d : FileStore) (key value : string) (w : World)
    (data : bytes) (err : error) :
  fs_faults w = [] ->
  fs_file w = Some data -> data <> [] ->
  json_Unmarshal data = inl err ->
  FileStore_Get d key w = (Err err, w) /\
  FileStore_List d w = (Err err, w) /\
  FileStore_CheckExists d key w = (Err err, w) /\
  FileStore_Delete d key w = (Err err, w) /\
  (forall r w', FileStore_Put d key value w = (r, w') ->
     r <> Ok tt /\ untouched w w' /\
     (supplies [16; 24] (entropy w) = true -> r = Err err)).
Proof.
  intros Hz Hf Hne Hbad.
  assert (Hdec : decode_file (Some data) = inl err).
  { simpl. rewrite decide_False; [done|]. by destruct data. }
  assert (Hg : getStore d w = (Err err, w)).
  { rewrite getStore_nofault, Hf, Hdec by done. by rewrite (created_existing w data). }
  unfold FileStore_Get, FileStore_List, FileStore_CheckExists, FileStore_Delete, bind.
  rewrite Hg. repeat (split; [done|]).
  intros r w'. unfold FileStore_Put, bind.
  rewrite createStoreIfNotExists_nofault, (created_existing w data) by done.
  destruct (encrypt_cases (bytes_of_string value) (cryptoKey d) w)
    as [(blob & wb & He & Hs)|(msg & wb & He & Hs & Hu)]; rewrite He.
  - unfold user_Current, time_Now. simpl.
    pose proof He as (_ & _ & _ & _ & (Hbf & Hbw & Hbz & _) & _)%encrypt_Ok_inv.
    rewrite getStore_nofault by congruence.
    rewrite Hbf, Hf, Hdec. simpl.
    rewrite (created_existing wb data) by congruence.
    intros [= <- <-]. by repeat split.
  - intros [= <- <-]. split; [done|]. split; [done|]. congruence.
Qed.

(** X12: [Delete] on an existing store file writes as its last step only.
    Either it fails having written nothing, the file being what it was, or
    the records were loaded and the one write is that of the records kept
    (of zero bytes when none is kept). *)
Theorem Delete_writes_last (d : FileStore) (key : string) (w : World) (b : bytes)
    (r : Outcome unit) (w' : World) :
  fs_file w = Some b ->
  FileStore_Delete d key w = (r, w') ->
  (r <> Ok tt /\ untouched w w') \/
  (exists store wc data,
     getStore d w = (Ok store, wc) /\
     untouched w wc /\
     (let kept := filter (fun e => Name (KeyInfo e) <> key) store in
      (kept = [] /\ data = []) \/ (kept <> [] /\ json_Marshal kept = inr data)) /\
     ioutil_WriteFile data wc = (r, w') /\
     fs_writes w' = fs_writes w ++ [data]).
Proof.
  intros Hb. unfold FileStore_Delete, bind.
  destruct (getStore d w) as [o wc] eqn:Hg.
  pose proof (getStore_existing d w b _ _ Hb Hg) as Hu.
  destruct o as [store|e|msg]; [|intros [= <- <-]; by left..].
  rewrite Delete_loop. simpl.
  set (kept := filter (fun e => Name (KeyInfo e) <> key) store).
  assert (Hlog : forall data, ioutil_WriteFile data wc = (r, w') ->
                              fs_writes w' = fs_writes w ++ [data]).
  { intros data. unfold ioutil_WriteFile.
    destruct (next_fault wc) as [f wn] eqn:E.
    apply next_fault_frame in E as (_ & Hwn & _). destruct Hu as [_ Hw].
    destruct f; intros [= _ <-]; simpl; congruence. }
  destruct kept as [|e kept'] eqn:Hk; simpl length.
  - simpl. intros Hwr. right. exists store, wc, []. fold kept. rewrite Hk.
    split; [done|]. split; [done|]. split; [by left|]. split; [done|by apply Hlog].
  - destruct (Nat.ltb_spec 0 (S (length kept'))) as [_|?]; [|lia].
    destruct (json_Marshal (e :: kept')) as [err|data] eqn:Hm.
    + intros [= <- <-]. by left.
    + intros Hwr. right. exists store, wc, data. fold kept. rewrite Hk.
      split; [done|]. split; [done|]. split; [by right|]. split; [done|by apply Hlog].
Qed.

(** X13: when the first look at the store file fails for a reason other
    than its absence, every operation fails with that error, and nothing is
    created or written, even when the file is missing. *)
Theorem stat_failure_stops_everything (d : FileStore) (key value : string) (w : World)
    (errno : nat) (rest : list (option nat)) :
  fs_faults w = Some errno :: rest ->
  let w' := mkWorld (fs_file w) (fs_writes w) rest (entropy w) (clock w) (os_user w) in
  FileStore_Get d key w = (Err (ErrSyscall errno), w') /\
  FileStore_List d w = (Err (ErrSyscall errno), w') /\
  FileStore_CheckExists d key w = (Err (ErrSyscall errno), w') /\
  FileStore_Put d key value w = (Err (ErrSyscall errno), w') /\
  FileStore_Delete d key w = (Err (ErrSyscall errno), w').
Proof.
  intros Hz w'.
  assert (Hc : createStoreIfNotExists d w = (Err (ErrSyscall errno), w')).
  { unfold createStoreIfNotExists, try, os_Stat, next_fault. by rewrite Hz. }
  assert (Hg : getStore d w = (Err (ErrSyscall errno), w')).
  { unfold getStore, bind. by rewrite Hc. }
  unfold FileStore_Get, FileStore_List, FileStore_CheckExists, FileStore_Delete,
    FileStore_Put, bind.
  by rewrite Hg, Hc.
Qed.


(** X15: [Put] stores nothing when the entropy source fails.  Without
    file system faults, if the source cannot deliver the 16 and 24 bytes,
    [Put] panics; the store file is then as it was, or newly created and
    empty, and no record has been written. *)
Theorem Put_without_entropy (d : FileStore) (key value : string) (w : World) :
  fs_faults w = [] ->
  supplies [16; 24] (entropy w) = false ->
  exists msg w',
    FileStore_Put d key value w = (Panic msg, w') /\
    fs_file w' = fs_file (created w) /\
    fs_writes w' = fs_writes (created w) /\
    (forall b, fs_file w = Some b -> untouched w w') /\
    (fs_file w = None -> fs_file w' = Some []).
Proof.
  intros Hz Hs. unfold FileStore_Put, bind.
  rewrite createStoreIfNotExists_nofault by done.
  destruct (created_frame w) as (_ & Hce & _).
  rewrite <- Hce in Hs.
  destruct (encrypt_cases (bytes_of_string value) (cryptoKey d) (created w))
    as [(? & ? & _ & ?)|(msg & wb & He & _ & (Hf & Hw))]; [congruence|].
  rewrite He. exists msg, wb. split; [done|]. split; [done|]. split; [done|].
  split.
  - intros b Hb. rewrite (created_existing w b Hb) in Hf, Hw. by split.
  - intros Hn. rewrite Hf. unfold created. by rewrite Hn.
Qed.



(** ** VaultStore *)

(** X16: for [VaultStore], a 404 from the service means absence, not
    failure: [CheckExists] answers [false], [Delete] succeeds and [List] is
    empty; and whenever one of them does fail, it is with an error of the
    service other than a 404, handed on unchanged. *)
Theorem Vault_absent_is_not_an_error (v : Vault) (p : Profile) (key : string) :
  (KvV2Read v (path_Join (ProjectID p) key) (getMountPath p) = inl (ErrResponse 404) ->
     VaultStore_CheckExists v p key = inr false) /\
  (forall v', KvV2DeleteMetadataAndAllVersions v (path_Join (ProjectID p) key)
                (getMountPath p) = (Some (ErrResponse 404), v') ->
     VaultStore_Delete v p key = (None, v')) /\
  (KvV2List v (ProjectID p) (getMountPath p) = inl (ErrResponse 404) ->
     VaultStore_List v p = inr []) /\
  (forall e, VaultStore_CheckExists v p key = inl e ->
     e <> ErrResponse 404 /\
     KvV2Read v (path_Join (ProjectID p) key) (getMountPath p) = inl e) /\
  (forall e v', VaultStore_Delete v p key = (Some e, v') ->
     e <> ErrResponse 404 /\
     KvV2DeleteMetadataAndAllVersions v (path_Join (ProjectID p) key) (getMountPath p)
       = (Some e, v')) /\
  (forall e, KvV2List v (ProjectID p) (getMountPath p) = inl e ->
     e <> ErrResponse 404 -> VaultStore_List v p = inl e).
Proof.
  unfold VaultStore_CheckExists, VaultStore_Delete, VaultStore_List, http_StatusNotFound.
  split; [by intros ->|]. split; [by intros v' ->|]. split; [by intros ->|].
  split; [|split].
  - intros e. destruct (KvV2Read v _ _) as [err|?]; [|done].
    destruct err; try (by intros [= <-]).
    case_decide; [done|]. intros [= <-]. split; [congruence|done].
  - intros e v'. destruct (KvV2DeleteMetadataAndAllVersions v _ _) as [[err|] v1]; [|done].
    destruct err; try (by intros [= <- <-]).
    case_decide; [done|]. intros [= <- <-]. split; [congruence|done].
  - intros e -> Hne. destruct e; try done.
    case_decide; [congruence|done].
Qed.

Lemma VaultStore_List_range_ok v p names times keys :
  Forall2 (fun k t => KvV2ReadMetadata v (path_Join (ProjectID p) k) (getMountPath p)
                      = inr t) names times ->
  VaultStore_List_range v p names keys =
    inr (keys ++ zip_with (fun k t => mkKey k t "" "") names times).
Proof.
  intros Hall. revert keys.
  induction Hall as [|k t names times Hk _ IH]; intros keys; simpl.
  - by rewrite app_nil_r.
  - by rewrite Hk, IH, <- (assoc_L (++)).
Qed.

Lemma VaultStore_List_range_fails v p before k after times e keys :
  Forall2 (fun k t => KvV2ReadMetadata v (path_Join (ProjectID p) k) (getMountPath p)
                      = inr t) before times ->
  KvV2ReadMetadata v (path_Join (ProjectID p) k) (getMountPath p) = inl e ->
  VaultStore_List_range v p (before ++ k :: after) keys = inl e.
Proof.
  intros Hall Hk. revert keys.
  induction Hall as [|k' t names times Hk' _ IH]; intros keys; simpl.
  - by rewrite Hk.
  - by rewrite Hk', IH.
Qed.

(** X17: [VaultStore.List] reads the metadata of every key the service
    lists, in order.  When every read succeeds the result names the keys in
    the order listed, each with its creation time; the first read that fails
    fails the whole listing with its error, and no partial list is
    returned. *)
Theorem Vault_List_all_or_nothing (v : Vault) (p : Profile) (names : list string) :
  KvV2List v (ProjectID p) (getMountPath p) = inr names ->
  (forall times,
     Forall2 (fun k t => KvV2ReadMetadata v (path_Join (ProjectID p) k) (getMountPath p)
                         = inr t) names times ->
     VaultStore_List v p = inr (zip_with (fun k t => mkKey k t "" "") names times) /\
     map Name (zip_with (fun k t => mkKey k t "" "") names times) = names) /\
  (forall before k after times e,
     names = before ++ k :: after ->
     Forall2 (fun k t => KvV2ReadMetadata v (path_Join (ProjectID p) k) (getMountPath p)
                         = inr t) before times ->
     KvV2ReadMetadata v (path_Join (ProjectID p) k) (getMountPath p) = inl e ->
     VaultStore_List v p = inl e).
Proof.
  intros Hlist. unfold VaultStore_List. rewrite Hlist. split.
  - intros times Hall. split.
    + by rewrite (VaultStore_List_range_ok v p names times [] Hall).
    + clear Hlist. induction Hall as [|k t names times _ _ IH]; simpl; [done|].
      by rewrite IH.
  - intros before k after times e -> Hall Hk.
    by apply (VaultStore_List_range_fails v p before k after times e).
Qed.

(** X18: what [Put] wrote, [Get] reads.  For a service that answers a read
    with the data of the last write to that path, a [Put] that succeeded,
    with or without overwrite, is followed by a [Get] of the same key that
    returns the bytes of the value. *)
Theorem Vault_Put_then_Get (v v' : Vault) (p : Profile) (key value : string)
    (overwrite : bool) :
  (forall v path req mount v',
     KvV2Write v path req mount = (None, v') ->
     KvV2Read_Data v' path mount = inr {[ "value" := IfaceString (kv_value req) ]}) ->
  VaultStore_Put v p key value overwrite = (None, v') ->
  VaultStore_Get v' p key = inr (bytes_of_string value) /\
  string_of_bytes (bytes_of_string value) = value.
Proof.
  intros Hryw HP.
  assert (Hwrite : KvV2Write v (path_Join (ProjectID p) key) (mkKvV2WriteRequest value)
                             (getMountPath p) = (None, v')).
  { revert HP. unfold VaultStore_Put, VaultStore_write.
    destruct overwrite; simpl; [done|].
    destruct (VaultStore_CheckExists v p key) as [e|[|]]; [by intros [=]..|done]. }
  split.
  - unfold VaultStore_Get. rewrite (Hryw _ _ _ _ _ Hwrite). simpl.
    by rewrite lookup_singleton_eq.
  - apply string_of_list_byte_of_string.
Qed.

(** ** AWSSecretManager.List *)

Lemma AWSSecretManager_List_range_ok entries ks keys :
  Forall2 (fun e k => key_of_entry e = Some k) entries ks ->
  AWSSecretManager_List_range entries keys = Ok (keys ++ ks).
Proof.
  intros Hall. revert keys.
  induction Hall as [|e k entries ks He _ IH]; intros keys; simpl.
  - by rewrite app_nil_r.
  - unfold key_of_entry in He.
    destruct (sl_Name e), (sl_CreatedDate e); try discriminate.
    injection He as <-. by rewrite IH, <- (assoc_L (++)).
Qed.

Lemma AWSSecretManager_List_range_panics entries keys :
  Exists (fun e => key_of_entry e = None) entries ->
  exists msg, AWSSecretManager_List_range entries keys = Panic msg.
Proof.
  intros Hex. revert keys.
  induction entries as [|e entries IH]; intros keys; [by apply Exists_nil in Hex|].
  simpl. unfold key_of_entry in Hex.
  apply Exists_cons in Hex as [He|Hex].
  - destruct (sl_Name e), (sl_CreatedDate e); try discriminate; by eexists.
  - destruct (sl_Name e), (sl_CreatedDate e); try (by eexists). by apply IH.
Qed.

Lemma AWSSecretManager_List_range_cases (entries : list SecretListEntry) :
  (exists ks, Forall2 (fun e k => key_of_entry e = Some k) entries ks) \/
  Exists (fun e => key_of_entry e = None) entries.
Proof.
  induction entries as [|e entries [(ks & IH)|IH]].
  - left. by exists [].
  - destruct (key_of_entry e) as [k|] eqn:He.
    + left. exists (k :: ks). by constructor.
    + right. by left.
  - right. by right.
Qed.

Lemma AWSSecretManager_List_loop_ok m tok pages ks keys fuel :
  pages_from m tok pages ->
  Forall2 (fun e k => key_of_entry e = Some k) (concat (map SecretList pages)) ks ->
  length pages <= fuel ->
  AWSSecretManager_List_loop fuel m tok keys = Some (Ok (keys ++ ks)).
Proof.
  intros Hp. revert ks keys fuel.
  induction Hp as [tok out Hout Hnone|tok out token rest Hout Hsome Hrest IH];
    intros ks keys fuel Hall Hfuel; simpl in Hall, Hfuel.
  - destruct fuel as [|fuel]; [lia|]. simpl. rewrite Hout.
    rewrite app_nil_r in Hall.
    by rewrite (AWSSecretManager_List_range_ok _ ks), Hnone.
  - destruct fuel as [|fuel]; [lia|]. simpl. rewrite Hout.
    apply Forall2_app_inv_l in Hall as (ks1 & ks2 & H1 & H2 & ->).
    rewrite (AWSSecretManager_List_range_ok _ ks1) by done. rewrite Hsome.
    rewrite (IH ks2 (keys ++ ks1) fuel) by (done || lia).
    by rewrite (assoc_L (++)).
Qed.

Lemma AWSSecretManager_List_loop_panics m tok pages keys fuel :
  pages_from m tok pages ->
  Exists (fun e => key_of_entry e = None) (concat (map SecretList pages)) ->
  length pages <= fuel ->
  exists msg, AWSSecretManager_List_loop fuel m tok keys = Some (Panic msg).
Proof.
  intros Hp. revert keys fuel.
  induction Hp as [tok out Hout Hnone|tok out token rest Hout Hsome Hrest IH];
    intros keys fuel Hex Hfuel; simpl in Hex, Hfuel.
  - destruct fuel as [|fuel]; [lia|]. simpl. rewrite Hout.
    rewrite app_nil_r in Hex.
    destruct (AWSSecretManager_List_range_panics _ keys Hex) as [msg ->]. by exists msg.
  - destruct fuel as [|fuel]; [lia|]. simpl. rewrite Hout.
    destruct (AWSSecretManager_List_range_cases (SecretList out))
      as [(ks & Hok)|Hbad].
    + rewrite (AWSSecretManager_List_range_ok _ ks) by done. rewrite Hsome.
      apply Exists_app in Hex as [Hex|Hex].
      * exfalso. clear -Hok Hex. induction Hok as [|e k l ks He _ IH].
        -- by apply Exists_nil in Hex.
        -- apply Exists_cons in Hex as [?|?]; [congruence|by apply IH].
      * apply IH; [done|lia].
    + destruct (AWSSecretManager_List_range_panics _ keys Hbad) as [msg ->].
      by exists msg.
Qed.

(** X19: [AWSSecretManager.List] follows the pages of the service to the
    end.  When the service answers with a finite chain of pages, the loop
    ends within as many calls and returns the key of every secret of every
    page, in order: its name and creation date, with its description and
    owning service where present and empty where not.  It panics when a
    listed secret carries no name or no creation date. *)
Theorem AWSSecretManager_List_pages (m : SecretsManager) (p : Profile)
    (pages : list ListSecretsOutput) (fuel : nat) :
  pages_from m None pages ->
  length pages <= fuel ->
  (forall keys,
     Forall2 (fun e k => key_of_entry e = Some k) (concat (map SecretList pages)) keys ->
     AWSSecretManager_List fuel m p = Some (Ok keys)) /\
  (Exists (fun e => key_of_entry e = None) (concat (map SecretList pages)) ->
     exists msg, AWSSecretManager_List fuel m p = Some (Panic msg)).
Proof.
  intros Hp Hfuel. unfold AWSSecretManager_List. split.
  - intros keys Hall.
    by rewrite (AWSSecretManager_List_loop_ok m None pages keys [] fuel).
  - intros Hex. by apply (AWSSecretManager_List_loop_panics m None pages).
Qed.

(** ** The command layer *)

(** X20: [readFromStdIn] drops one trailing newline, and only one; input
    that does not end in a newline is returned whole; and on empty input it
    does not return: the index [len(buffer)-1] is out of range. *)
Theorem readFromStdIn_newline :
  readFromStdIn (inr []) = RuntimePanic "index out of range [-1]" /\
  (forall b, readFromStdIn (inr (b ++ [x0a])) = Returns (string_of_bytes b)) /\
  (forall b c, c <> x0a ->
     readFromStdIn (inr (b ++ [c])) = Returns (string_of_bytes (b ++ [c]))) /\
  (forall b s, readFromStdIn (inr b) = Returns s ->
     b <> [] /\ (bytes_of_string s = b \/ bytes_of_string s ++ [x0a] = b)).
Proof.
  assert (Hlast : forall (b : bytes) c, (b ++ [c]) !! (length (b ++ [c]) - 1) = Some c).
  { intros b c. rewrite length_app. simpl.
    replace (length b + 1 - 1) with (length b + 0) by lia.
    by rewrite lookup_app_r, Nat.add_0_r, Nat.sub_diag by lia. }
  assert (Hinit : forall (b : bytes) c, take (length (b ++ [c]) - 1) (b ++ [c]) = b).
  { intros b c. rewrite length_app. simpl.
    replace (length b + 1 - 1) with (length b) by lia. apply take_app_length. }
  split; [done|]. split; [|split].
  - intros b. unfold readFromStdIn. by rewrite Hlast, decide_True, Hinit.
  - intros b c Hc. unfold readFromStdIn. by rewrite Hlast, decide_False.
  - intros b s. destruct b as [|x b _] using rev_ind; [done|].
    unfold readFromStdIn. rewrite Hlast. unfold string_of_bytes, bytes_of_string.
    case_decide as Hx.
    + rewrite Hinit. intros [= <-]. split; [by destruct b|].
      right. by rewrite list_byte_of_string_of_list_byte, Hx.
    + intros [= <-]. split; [by destruct b|].
      left. by rewrite list_byte_of_string_of_list_byte.
Qed.

Lemma restore_range_spec {S : Type}
    (put : S -> Profile -> string -> string -> bool -> option error * S)
    target items (b : S) :
  snd (restore_range put target items b) = fold_left (restore_step put target) items b /\
  sublist (map fst (fst (restore_range put target items b))) (map fst items).
Proof.
  revert b. induction items as [|[k v] items IH]; intros b; simpl.
  - split; [done|]. constructor.
  - unfold restore_step at 2. simpl.
    destruct (put b target (k ++ "_restore")%string (string_of_bytes v) false)
      as [err b1].
    specialize (IH b1).
    destruct (restore_range put target items b1) as [errors b2]. simpl in *.
    destruct IH as [-> Hsub]. split; [done|].
    destruct err; simpl; [by apply sublist_skip|by apply sublist_cons].
Qed.

(** X21: [restore] is best effort.  For a file that decodes, whatever the
    backend, every item is [Put] once under its name with [_restore]
    appended and without overwrite, a failed [Put] not stopping the
    others; the count reported is that of the items, and the errors logged
    name items of the file only, in the order visited. *)
Theorem restore_is_best_effort {S : Type}
    (put : S -> Profile -> string -> string -> bool -> option error * S)
    (target : Profile) (buf : bytes) (items : gmap string bytes) (b : S) :
  json_Unmarshal_items buf = inr items ->
  exists errors b',
    restore put target (inr buf) b = Restored (size items) errors b' /\
    b' = fold_left (restore_step put target) (range_items items) b /\
    sublist (map fst errors) (map fst (range_items items)) /\
    length (range_items items) = size items /\
    forall k e, (k, e) ∈ errors -> exists v, items !! k = Some v.
Proof.
  intros Hdec. unfold restore. rewrite Hdec.
  destruct (restore_range_spec put target (range_items items) b) as [Hb Hsub].
  destruct (restore_range put target (range_items items) b) as [errors b'].
  simpl in Hb, Hsub.
  exists errors, b'. split; [done|]. split; [done|]. split; [done|]. split.
  - by rewrite range_items_perm, length_map_to_list.
  - intros k e Hin.
    assert (Hk : k ∈ map fst (range_items items)).
    { eapply elem_of_sublist; [|exact Hsub].
      apply elem_of_map. by exists (k, e). }
    apply elem_of_map in Hk as ([k' v] & -> & Hkv). exists v.
    rewrite range_items_perm in Hkv. by apply elem_of_map_to_list in Hkv.
Qed.

End Coverage.


(** ** The reference instances satisfy the library laws *)

Lemma Mock_argon2_Key_length password salt time memory threads keyLen :
  length (Mock.argon2_Key password salt time memory threads keyLen) = keyLen.
Proof.
  unfold Mock.argon2_Key. rewrite length_take, !length_app, repeat_length. lia.
Qed.

Lemma Mock_tag_length key nonce ad : length (Mock.tag key nonce ad) = Overhead.
Proof.
  unfold Mock.tag. rewrite length_take, !length_app, repeat_length. lia.
Qed.

Lemma Mock_xseal_length key nonce plaintext ad :
  length (Mock.xseal key nonce plaintext ad) = length plaintext + Overhead.
Proof. unfold Mock.xseal. by rewrite length_app, Mock_tag_length. Qed.

Lemma Mock_xopen_xseal key nonce plaintext ad :
  length key = KeySize -> length nonce = NonceSizeX ->
  Mock.xopen key nonce (Mock.xseal key nonce plaintext ad) ad = Some plaintext.
Proof.
  intros _ _. unfold Mock.xopen, Mock.xseal.
  rewrite length_app, Mock_tag_length, Nat.add_sub.
  rewrite drop_app_length, decide_True by done.
  by rewrite take_app_length.
Qed.

Lemma Mock_dec_enc_bytes b tl : Mock.dec_bytes (Mock.enc_bytes b ++ tl) = Some (b, tl).
Proof. induction b as [|x b IH]; simpl; [done|]. by rewrite IH. Qed.

Lemma Mock_dec_enc_nat n tl : Mock.dec_nat (Mock.enc_nat n ++ tl) = Some (n, tl).
Proof. induction n as [|n IH]; simpl; [done|]. by rewrite IH. Qed.

Lemma Mock_dec_enc_pos p tl : Mock.dec_pos (Mock.enc_pos p ++ tl) = Some (p, tl).
Proof. induction p as [p IH|p IH|]; simpl; [by rewrite IH..|done]. Qed.

Lemma Mock_dec_enc_time t tl : Mock.dec_time (Mock.enc_time t ++ tl) = Some (t, tl).
Proof. destruct t as [|p|p]; simpl; [done|by rewrite Mock_dec_enc_pos..]. Qed.

Lemma Mock_dec_enc_entry e tl : Mock.dec_entry (Mock.enc_entry e ++ tl) = Some (e, tl).
Proof.
  destruct e as [value [name createdAt owner info]].
  unfold Mock.dec_entry, Mock.enc_entry. simpl.
  rewrite <- !(assoc_L (++)).
  rewrite !Mock_dec_enc_bytes, Mock_dec_enc_time, !Mock_dec_enc_bytes.
  unfold string_of_bytes, bytes_of_string.
  by rewrite !string_of_list_byte_of_string.
Qed.

Lemma Mock_dec_enc_entries store tl :
  Mock.dec_entries (length store) (concat (map Mock.enc_entry store) ++ tl) =
    Some (store, tl).
Proof.
  induction store as [|e store IH]; simpl; [done|].
  by rewrite <- (assoc_L (++)), Mock_dec_enc_entry, IH.
Qed.

Lemma Mock_json_Marshal_total store :
  Forall Mock.json_exact store -> exists data, Mock.json_Marshal store = inr data.
Proof. intros _. by eexists. Qed.

Lemma Mock_json_Unmarshal_Marshal store data :
  Forall Mock.json_exact store -> Mock.json_Marshal store = inr data ->
  Mock.json_Unmarshal data = inr store.
Proof.
  intros _ [= <-]. unfold Mock.json_Unmarshal. simpl.
  rewrite <- !(assoc_L (++)), Mock_dec_enc_nat, Mock_dec_enc_entries.
  by rewrite decide_True.
Qed.

Lemma Mock_json_Marshal_array store data :
  store <> [] -> Mock.json_Marshal store = inr data ->
  exists body, body <> [] /\ data = ["["%byte] ++ body ++ ["]"%byte].
Proof.
  intros _ [= <-]. eexists. split; [|done].
  by destruct (length store).
Qed.

Lemma Mock_range_items_perm (items : gmap string bytes) :
  Mock.range_items items ≡ₚ map_to_list items.
Proof. done. Qed.

Lemma Mock_argon2_laws : Argon2Laws Mock.argon2.
Proof. constructor. apply Mock_argon2_Key_length. Qed.

Lemma Mock_xchacha_laws : XChaCha20Poly1305Laws Mock.xchacha.
Proof. constructor; [apply Mock_xseal_length|apply Mock_xopen_xseal]. Qed.

Lemma Mock_json_laws : EncodingJSONLaws Mock.json.
Proof.
  constructor;
    [apply Mock_json_Marshal_total|apply Mock_json_Unmarshal_Marshal
    |apply Mock_json_Marshal_array].
Qed.

Lemma Mock_maprange_laws : MapRangeLaws Mock.maprange.
Proof. constructor. apply Mock_range_items_perm. Qed.

(** ** The scenario, run through the theorems *)

Section Witnesses.

#[local] Existing Instance Mock.argon2.
#[local] Existing Instance Mock.xchacha.
#[local] Existing Instance Mock.json.
#[local] Existing Instance Mock.maprange.
#[local] Existing Instance Mock.pathpkg.
#[local] Existing Instance Mock.vault.
#[local] Existing Instance Mock.secretsmanager.

(** The end-to-end example of the specification: one [Put] on an empty
    store, [Get] under the right and under a wrong passphrase, then
    [Delete]. *)
Example end_to_end :
  let w1 := snd (FileStore_Put demo_store "db-pass" "s3cr3t" fresh_world) in
  let wrong := mkFileStore "/home/alice/demo.secrets.kiya" "demo" (bytes_of_string "wrong") in
  let w2 := snd (FileStore_Delete demo_store "db-pass" w1) in
  fst (FileStore_Put demo_store "db-pass" "s3cr3t" fresh_world) = Ok tt /\
  fst (getStore demo_store w1) = Ok [first_record] /\
  fst (FileStore_Get demo_store "db-pass" w1) = Ok (bytes_of_string "s3cr3t") /\
  fst (FileStore_Get wrong "db-pass" w1) = Err ErrMessageAuthenticationFailed /\
  fst (FileStore_Get demo_store "api-key" w1) = Err (ErrKeyNotFound "api-key") /\
  fst (FileStore_List demo_store w2) = Ok [] /\
  fs_file w2 = Some [].
Proof. vm_compute. repeat split. Qed.

(** The [Put and Get] and [CheckExists] cases of the Vault test suite, and a
    second [Put] without overwrite. *)
Example vault_put_twice :
  let v0 : Mock.Vault := ∅ in
  let v1 := snd (VaultStore_Put v0 demo_profile "test-key" "test-value" false) in
  fst (VaultStore_Put v0 demo_profile "test-key" "test-value" false) = None /\
  VaultStore_CheckExists v1 demo_profile "test-key" = inr true /\
  VaultStore_CheckExists v1 demo_profile "non-existent-key" = inr false /\
  fst (VaultStore_Put v1 demo_profile "test-key" "other" false)
    = Some (ErrAlreadyExists "test-key") /\
  fst (VaultStore_Put v1 demo_profile "test-key" "other" true) = None.
Proof. vm_compute. repeat split. Qed.

(** The round trip of C1 on ["s3cr3t"] under ["hunter2"]. *)
Lemma decrypt_encrypt_roundtrip_witness :
  supplies [16; 24] (entropy fresh_world) = true /\
  exists blob w',
    encrypt (bytes_of_string "s3cr3t") (bytes_of_string "hunter2") fresh_world
      = (Ok blob, w') /\
    decrypt blob (bytes_of_string "hunter2") = Ok (bytes_of_string "s3cr3t").
Proof.
  split; [reflexivity|].
  apply (decrypt_encrypt_roundtrip (A2L := Mock_argon2_laws) (XCL := Mock_xchacha_laws)).
  reflexivity.
Defined.

(** C2 on the store holding two records named [db-pass]: the first one
    decides. *)
Lemma Get_first_match_witness :
  getStore demo_store twice_put_world = (Ok twice_put_records, twice_put_world) /\
  FileStore_Get demo_store "db-pass" twice_put_world =
    (Ok (bytes_of_string "s3cr3t"), twice_put_world).
Proof.
  assert (Hload : getStore demo_store twice_put_world =
                    (Ok twice_put_records, twice_put_world)) by reflexivity.
  split; [exact Hload|].
  destruct (Get_first_match (A2L := Mock_argon2_laws) demo_store "db-pass"
              twice_put_world twice_put_records twice_put_world Hload) as [_ Hfirst].
  destruct (Hfirst [] first_record [second_record] eq_refl (Forall_nil_2 _) eq_refl)
    as [Hok _].
  apply Hok. reflexivity.
Defined.



(** C7 on a blob of 39 bytes. *)
Lemma decrypt_format_check_witness :
  length short_blob < 40 /\
  decrypt short_blob (bytes_of_string "hunter2") = Err ErrIncorrectFormat.
Proof.
  assert (Hlen : length short_blob < 40) by (vm_compute; lia).
  split; [exact Hlen|].
  destruct (decrypt_format_check (A2L := Mock_argon2_laws)
              (bytes_of_string "hunter2") short_blob) as [Hshort _].
  apply (Hshort Hlen).
Defined.

(** C9 on ["s3cr3t"]: a blob of 62 bytes. *)
Lemma encrypt_length_witness :
  fst (encrypt (bytes_of_string "s3cr3t") (bytes_of_string "hunter2") fresh_world)
    = Ok sealed_blob /\
  length sealed_blob = 62.
Proof.
  split; [reflexivity|].
  destruct (encrypt (bytes_of_string "s3cr3t") (bytes_of_string "hunter2") fresh_world)
    as [o w'] eqn:He.
  assert (Ho : o = Ok sealed_blob) by (by injection He as <- _).
  subst o.
  destruct (encrypt_length (A2L := Mock_argon2_laws) (XCL := Mock_xchacha_laws)
              _ _ _ _ _ He) as [Hlen _].
  exact Hlen.
Defined.

(** C10 on a store file that does not load: [Put] fails and the file is
    what it was. *)
Lemma Put_writes_last_witness :
  fs_file garbage_world = Some garbage /\
  exists r w',
    FileStore_Put demo_store "db-pass" "s3cr3t" garbage_world = (r, w') /\
    r <> Ok tt /\ fs_file w' = Some garbage /\ fs_writes w' = fs_writes garbage_world.
Proof.
  split; [reflexivity|].
  destruct (FileStore_Put demo_store "db-pass" "s3cr3t" garbage_world) as [r w'] eqn:HP.
  exists r, w'. split; [reflexivity|].
  destruct (Put_writes_last demo_store "db-pass" "s3cr3t" garbage_world garbage r w'
              eq_refl HP) as (_ & Hload & _ & _).
  destruct (encrypt (bytes_of_string "s3cr3t") (cryptoKey demo_store) garbage_world)
    as [ob wb] eqn:He.
  destruct ob as [blob|e|msg]; try discriminate He.
  destruct (getStore demo_store wb) as [oc wc] eqn:Hg.
  destruct (Hload garbage_world blob wb oc wc eq_refl He Hg) as (Hr & _ & Hf & Hw).
  - injection He as _ <-. vm_compute in Hg. by injection Hg as <- _.
  - by repeat split.
Defined.

(** C4, Vault: the secret exists, [overwrite = false], so [Put] fails and
    the Vault is what it was. *)
Lemma Put_overwrite_by_backend_witness :
  VaultStore_CheckExists demo_vault demo_profile "db-pass" = inr true /\
  VaultStore_Put demo_vault demo_profile "db-pass" "new" false =
    (Some (ErrAlreadyExists "db-pass"), demo_vault).
Proof.
  assert (Hex : VaultStore_CheckExists demo_vault demo_profile "db-pass" = inr true)
    by reflexivity.
  split; [exact Hex|].
  destruct (Put_overwrite_by_backend (A2L := Mock_argon2_laws) (XCL := Mock_xchacha_laws)
              (EJL := Mock_json_laws) (PP := Mock.pathpkg) (VC := Mock.vault)
              (SM := Mock.secretsmanager)) as (_ & Hvault & _).
  destruct (Hvault demo_vault demo_profile "db-pass" "new") as (Hfail & _).
  apply (Hfail Hex).
Defined.

(** C4 as stated fails on [AWSSecretManager]: the secret exists, the flag
    is [false], and [Put] succeeds in replacing the value. *)
Lemma AWSSecretManager_Put_overwrites :
  AWSSecretManager_CheckExists demo_secrets demo_profile "db-pass" = inr true /\
  AWSSecretManager_Put demo_secrets demo_profile "db-pass" "new" false =
    (None, <["db-pass" := "new"]> demo_secrets) /\
  ~ honors_overwrite (S := Mock.SecretsManager)
      AWSSecretManager_CheckExists AWSSecretManager_Put.
Proof.
  assert (Hex : AWSSecretManager_CheckExists demo_secrets demo_profile "db-pass" = inr true)
    by reflexivity.
  assert (Hput : AWSSecretManager_Put demo_secrets demo_profile "db-pass" "new" false =
                   (None, <["db-pass" := "new"]> demo_secrets)) by reflexivity.
  split; [exact Hex|]. split; [exact Hput|].
  intros Hhon. destruct (Hhon demo_secrets demo_profile "db-pass" "new" Hex) as [err Herr].
  rewrite Hput in Herr. discriminate Herr.
Qed.

(** [restore] on an encrypted backup whose bytes decode: the bytes are
    stored as they are. *)
Lemma restore_stores_decoded_bytes_witness :
  json_Unmarshal_items backup_file = inr {[ "Data" := backup_file ]} /\
  exists calls,
    restore recording_Put demo_profile (inr backup_file) [] = Restored 1 [] calls /\
    calls ≡ₚ [("Data_restore", string_of_bytes backup_file, false)].
Proof.
  assert (Hdec : json_Unmarshal_items backup_file = inr {[ "Data" := backup_file ]})
    by reflexivity.
  split; [exact Hdec|].
  destruct (restore_stores_decoded_bytes (MRL := Mock_maprange_laws)
              demo_profile backup_file) as [_ Hok].
  destruct (Hok _ Hdec) as (calls & Hres & Hperm).
  exists calls. rewrite map_size_singleton in Hres. split; [exact Hres|].
  by rewrite map_to_list_singleton in Hperm.
Defined.

End Witnesses.

Lemma Mock_vault_read_your_writes (v : Mock.Vault) path req mount v' :
  Mock.KvV2Write v path req mount = (None, v') ->
  Mock.KvV2Read_Data v' path mount = inr {[ "value" := IfaceString (kv_value req) ]}.
Proof.
  unfold Mock.KvV2Write, Mock.KvV2Read_Data, Mock.Vault in *. intros [= <-].
  by rewrite lookup_insert_eq.
Qed.

(** ** The further properties, run on the scenario *)

Section CoverageWitnesses.

#[local] Existing Instance Mock.argon2.
#[local] Existing Instance Mock.xchacha.
#[local] Existing Instance Mock.json.
#[local] Existing Instance Mock.maprange.
#[local] Existing Instance Mock.pathpkg.
#[local] Existing Instance Mock.vault.
#[local] Existing Instance Mock.secretsmanager.
#[local] Existing Instance Mock.vaultkv.
#[local] Existing Instance Mock.lister.

(** X1 where the entropy source has 16 bytes to give and 24 are asked. *)
Lemma makeNonce_all_or_panic_witness :
  supplies [24] (entropy no_entropy_world) = false /\
  exists msg w', makeNonce 24 no_entropy_world = (Panic msg, w') /\
                 fs_file w' = fs_file no_entropy_world.
Proof.
  split; [reflexivity|].
  destruct (makeNonce_all_or_panic 24 no_entropy_world) as (_ & _ & Hp).
  destruct (Hp eq_refl) as (msg & w' & HP & Hu).
  exists msg, w'. split; [exact HP|exact (proj1 Hu)].
Defined.


(** X3 on a blob of 45 bytes. *)
Lemma decrypt_error_kinds_witness :
  40 <= length blob_of_45 < 56 /\
  decrypt blob_of_45 (bytes_of_string "hunter2") = Err ErrOpen.
Proof.
  assert (Hlen : 40 <= length blob_of_45 < 56) by (vm_compute; lia).
  split; [exact Hlen|].
  destruct (decrypt_error_kinds (A2L := Mock_argon2_laws) blob_of_45
              (bytes_of_string "hunter2")) as (_ & _ & Hshort).
  exact (Hshort Hlen).
Defined.

(** X4 on the tampered store. *)
Lemma Get_masks_format_error_witness :
  getStore demo_store tampered_world = (Ok tampered_records, tampered_world) /\
  FileStore_Get demo_store "db-pass" tampered_world =
    (Err ErrMessageAuthenticationFailed, tampered_world).
Proof.
  assert (Hload : getStore demo_store tampered_world =
                    (Ok tampered_records, tampered_world)) by reflexivity.
  split; [exact Hload|].
  assert (Hshort : length (bytes_of_string "short") < 40) by (vm_compute; lia).
  destruct (Get_masks_format_error demo_store "db-pass" tampered_world tampered_world []
              (mkFileStoreEntry (bytes_of_string "short")
                                (mkKey "db-pass" 1600000000%Z "eve" ""))
              [first_record] Hload (Forall_nil_2 _) eq_refl Hshort) as [_ HG].
  exact HG.
Defined.

(** X5 on the store holding [db-pass] twice. *)
Lemma CheckExists_List_Get_agree_witness :
  getStore demo_store twice_put_world = (Ok twice_put_records, twice_put_world) /\
  FileStore_List demo_store twice_put_world =
    (Ok (map KeyInfo twice_put_records), twice_put_world).
Proof.
  assert (Hload : getStore demo_store twice_put_world =
                    (Ok twice_put_records, twice_put_world)) by reflexivity.
  split; [exact Hload|].
  destruct (CheckExists_List_Get_agree demo_store "db-pass" twice_put_world
              twice_put_world twice_put_records Hload) as [HL _].
  exact HL.
Defined.

(** X6 on the same store: both records of [db-pass] go. *)
Lemma Delete_removes_every_match_witness :
  fs_faults twice_put_world = [] /\
  getStore demo_store twice_put_world = (Ok twice_put_records, twice_put_world) /\
  exists w',
    FileStore_Delete demo_store "db-pass" twice_put_world = (Ok tt, w') /\
    getStore demo_store w' = (Ok [], w') /\
    FileStore_CheckExists demo_store "db-pass" w' = (Ok false, w').
Proof.
  assert (Hz : fs_faults twice_put_world = []) by reflexivity.
  assert (Hload : getStore demo_store twice_put_world =
                    (Ok twice_put_records, twice_put_world)) by reflexivity.
  split; [exact Hz|]. split; [exact Hload|].
  destruct (Delete_removes_every_match (EJL := Mock_json_laws) demo_store "db-pass"
              twice_put_world twice_put_world twice_put_records Hz Hload
              (proj2 (Forall_forall _ _) (fun _ _ => I)))
    as (w' & HD & Hg & Hc & _).
  exists w'. split; [exact HD|]. split; [exact Hg|exact Hc].
Defined.

(** X7 for a name the store does not hold. *)
Lemma Delete_idempotent_witness :
  fs_faults twice_put_world = [] /\
  getStore demo_store twice_put_world = (Ok twice_put_records, twice_put_world) /\
  exists w1,
    FileStore_Delete demo_store "api-key" twice_put_world = (Ok tt, w1) /\
    getStore demo_store w1 = (Ok twice_put_records, w1).
Proof.
  assert (Hz : fs_faults twice_put_world = []) by reflexivity.
  assert (Hload : getStore demo_store twice_put_world =
                    (Ok twice_put_records, twice_put_world)) by reflexivity.
  split; [exact Hz|]. split; [exact Hload|].
  destruct (Delete_idempotent (EJL := Mock_json_laws) demo_store "api-key"
              twice_put_world twice_put_world twice_put_records Hz Hload
              (proj2 (Forall_forall _ _) (fun _ _ => I)))
    as (w1 & w2 & HD1 & _ & _ & _ & Hsame).
  exists w1. split; [exact HD1|]. apply Hsame.
  repeat constructor; discriminate.
Defined.


(** X9 on the store that does not parse. *)
Lemma reads_leave_the_file_witness :
  fs_file garbage_world = Some garbage /\
  fs_file (snd (FileStore_Get demo_store "db-pass" garbage_world)) = Some garbage.
Proof.
  assert (Hf : fs_file garbage_world = Some garbage) by reflexivity.
  split; [exact Hf|].
  destruct (reads_leave_the_file demo_store "db-pass" garbage_world garbage Hf)
    as [[HG _] _].
  rewrite HG. exact Hf.
Defined.

(** X10 from the fresh world. *)
Lemma reads_create_the_file_witness :
  fs_file fresh_world = None /\ fs_faults fresh_world = [] /\
  FileStore_List demo_store fresh_world = (Ok [], created fresh_world) /\
  fs_file (created fresh_world) = Some [].
Proof.
  split; [reflexivity|]. split; [reflexivity|].
  destruct (reads_create_the_file demo_store "db-pass" fresh_world eq_refl eq_refl)
    as (_ & HL & _ & Hf & _).
  split; [exact HL|exact Hf].
Defined.

(** X11 on the store that does not parse. *)
Lemma corrupt_store_is_left_alone_witness :
  fs_faults garbage_world = [] /\ fs_file garbage_world = Some garbage /\
  garbage <> [] /\
  exists err, json_Unmarshal garbage = inl err /\
              FileStore_Delete demo_store "db-pass" garbage_world = (Err err, garbage_world).
Proof.
  split; [reflexivity|]. split; [reflexivity|].
  assert (Hne : garbage <> []) by discriminate.
  split; [exact Hne|].
  destruct (json_Unmarshal garbage) as [err|store] eqn:Hbad;
    [|vm_compute in Hbad; discriminate Hbad].
  exists err. split; [reflexivity|].
  destruct (corrupt_store_is_left_alone (A2L := Mock_argon2_laws)
              demo_store "db-pass" "s3cr3t" garbage_world
              garbage err eq_refl eq_refl Hne Hbad) as (_ & _ & _ & HD & _).
  exact HD.
Defined.

(** X12 on the store holding [db-pass] twice: one write, of zero bytes. *)
Lemma Delete_writes_last_witness :
  exists b r w',
    fs_file twice_put_world = Some b /\
    FileStore_Delete demo_store "db-pass" twice_put_world = (r, w') /\
    fs_writes w' = fs_writes twice_put_world ++ [[]].
Proof.
  destruct (fs_file twice_put_world) as [b|] eqn:Hf; [|discriminate Hf].
  destruct (FileStore_Delete demo_store "db-pass" twice_put_world) as [r w'] eqn:HD.
  exists b, r, w'. split; [reflexivity|]. split; [reflexivity|].
  destruct (Delete_writes_last demo_store "db-pass" twice_put_world b r w' Hf HD)
    as [[Hr _]|(store & wc & data & Hg & _ & Hkept & _ & Hlog)].
  - exfalso. apply Hr. vm_compute in HD. by injection HD as <- _.
  - assert (Hstore : store = twice_put_records).
    { vm_compute in Hg. by injection Hg as <- _. }
    subst store. destruct Hkept as [[_ ->]|[Hne _]]; [exact Hlog|].
    exfalso. apply Hne. reflexivity.
Defined.

(** X13 where the file cannot be examined. *)
Lemma stat_failure_stops_everything_witness :
  fs_faults no_access_world = [Some 13] /\
  FileStore_Put demo_store "db-pass" "s3cr3t" no_access_world =
    (Err (ErrSyscall 13),
     mkWorld None [] [] (entropy no_access_world) 1700000000%Z (Some "alice")).
Proof.
  split; [reflexivity|].
  destruct (stat_failure_stops_everything demo_store "db-pass" "s3cr3t" no_access_world
              13 [] eq_refl) as (_ & _ & _ & HP & _).
  exact HP.
Defined.


(** X15 where the entropy source falls short. *)
Lemma Put_without_entropy_witness :
  fs_faults no_entropy_world = [] /\
  supplies [16; 24] (entropy no_entropy_world) = false /\
  exists msg w',
    FileStore_Put demo_store "db-pass" "s3cr3t" no_entropy_world = (Panic msg, w') /\
    fs_file w' = Some [].
Proof.
  split; [reflexivity|]. split; [reflexivity|].
  destruct (Put_without_entropy (A2L := Mock_argon2_laws) demo_store "db-pass" "s3cr3t"
              no_entropy_world eq_refl eq_refl) as (msg & w' & HP & _ & _ & _ & Hnew).
  exists msg, w'. split; [exact HP|exact (Hnew eq_refl)].
Defined.


(** X16 on the Vault that holds nothing. *)
Lemma Vault_absent_is_not_an_error_witness :
  KvV2Read (∅ : Mock.Vault) (path_Join (ProjectID demo_profile) "db-pass")
    (getMountPath demo_profile) = inl (ErrResponse 404) /\
  VaultStore_CheckExists (∅ : Mock.Vault) demo_profile "db-pass" = inr false /\
  VaultStore_List (∅ : Mock.Vault) demo_profile = inr [].
Proof.
  destruct (Vault_absent_is_not_an_error (∅ : Mock.Vault) demo_profile "db-pass")
    as (Hce & _ & Hl & _).
  assert (Hread : KvV2Read (∅ : Mock.Vault) (path_Join (ProjectID demo_profile) "db-pass")
                    (getMountPath demo_profile) = inl (ErrResponse 404))
    by (vm_compute; reflexivity).
  split; [exact Hread|]. split; [exact (Hce Hread)|].
  apply Hl. vm_compute; reflexivity.
Defined.

(** X17 on the Vault with two secrets. *)
Lemma Vault_List_all_or_nothing_witness :
  KvV2List two_secret_vault (ProjectID demo_profile) (getMountPath demo_profile)
    = inr ["api-key"; "db-pass"] /\
  VaultStore_List two_secret_vault demo_profile =
    inr [mkKey "api-key" 1700000000%Z "" ""; mkKey "db-pass" 1700000000%Z "" ""].
Proof.
  assert (Hlist : KvV2List two_secret_vault (ProjectID demo_profile)
                    (getMountPath demo_profile) = inr ["api-key"; "db-pass"])
    by (vm_compute; reflexivity).
  split; [exact Hlist|].
  destruct (Vault_List_all_or_nothing two_secret_vault demo_profile _ Hlist) as [Hok _].
  destruct (Hok [1700000000%Z; 1700000000%Z]) as [HL _].
  - repeat constructor; vm_compute; reflexivity.
  - exact HL.
Defined.

(** X18 on the empty Vault. *)
Lemma Vault_Put_then_Get_witness :
  VaultStore_Put (∅ : Mock.Vault) demo_profile "db-pass" "s3cr3t" false =
    (None, {[ "demo/db-pass" := "s3cr3t" ]}) /\
  VaultStore_Get ({[ "demo/db-pass" := "s3cr3t" ]} : Mock.Vault) demo_profile "db-pass" =
    inr (bytes_of_string "s3cr3t").
Proof.
  assert (HP : VaultStore_Put (∅ : Mock.Vault) demo_profile "db-pass" "s3cr3t" false =
                 (None, {[ "demo/db-pass" := "s3cr3t" ]})) by (vm_compute; reflexivity).
  split; [exact HP|].
  exact (proj1 (Vault_Put_then_Get _ _ demo_profile "db-pass" "s3cr3t" false
                  Mock_vault_read_your_writes HP)).
Defined.

(** X19 on the two pages of secrets. *)
Lemma AWSSecretManager_List_pages_witness :
  pages_from secret_pages None secret_outputs /\
  length secret_outputs <= 2 /\
  AWSSecretManager_List 2 secret_pages demo_profile = Some (Ok secret_keys).
Proof.
  assert (Hp : pages_from secret_pages None secret_outputs).
  { eapply pages_more; [reflexivity|reflexivity|]. eapply pages_last; reflexivity. }
  assert (Hfuel : length secret_outputs <= 2) by (simpl; lia).
  split; [exact Hp|]. split; [exact Hfuel|].
  apply (proj1 (AWSSecretManager_List_pages secret_pages demo_profile secret_outputs 2
                  Hp Hfuel)).
  repeat constructor.
Defined.

End CoverageWitnesses.

Section RestoreWitness.

#[local] Existing Instance Mock.json_pairs.
#[local] Existing Instance Mock.maprange.

(** X21 on a backup of two items, into a backend that refuses the second. *)
Lemma restore_is_best_effort_witness :
  json_Unmarshal_items pairs_file = inr (Mock.decode_pairs pairs_file) /\
  restore picky_Put demo_profile (inr pairs_file) [] =
    Restored 2 [("b", ErrAlreadyExists "b_restore")] [("a_restore", "1")].
Proof.
  assert (Hdec : json_Unmarshal_items pairs_file = inr (Mock.decode_pairs pairs_file))
    by reflexivity.
  split; [exact Hdec|].
  destruct (restore_is_best_effort (MRL := Mock_maprange_laws) picky_Put demo_profile
              pairs_file _ [] Hdec) as (errors & b' & Hres & _).
  rewrite Hres. vm_compute in Hres. injection Hres as <- <-. reflexivity.
Defined.

End RestoreWitness.
